(** * CAMERA-NEW: the capture and enhancement pipeline

    A shallow embedding of
    - [src/services/imageProcessing.ts] ([applyConvolution],
      [processSonyLook], [performStacking]),
    - [src/services/geminiService.ts] ([analyzeImageScene]),
    - [src/App.tsx] ([handleCapture], [handleAiAnalysis]),
    and the properties of the pipeline proved on it. *)

From Stdlib Require Import ZArith Lia QArith Qcanon Field.
From stdpp Require Import base tactics option list numbers strings pretty.

(** ** For loops

    [for (let i = 0; i < n; i++) body] as a fold over [0, 1, .., n-1]. *)

Definition for_loop {S : Type} (n : nat) (body : nat → S → S) (s : S) : S :=
  fold_left (λ s i, body i s) (seq 0 n) s.

(** ** JavaScript numbers

    The convolution multiplies 8-bit channel values by kernel weights and adds
    them up.  Weights are modelled as integers, on which the arithmetic of
    JS numbers is exact as long as the sums stay below 2^53 in size; beyond
    that the doubles of the code round, and overflow.  Weights with a
    fraction, which [number[]] admits, are outside this model.  [None] is
    [NaN], which is what arithmetic on an [undefined] array element (an
    index past the end) gives. *)

Module JS.

Definition num : Type := option Z.

Definition NaN : num := None.

Definition mul (a b : num) : num :=
  match a, b with
  | Some x, Some y => Some (x * y)%Z
  | _, _ => NaN
  end.

Definition add (a b : num) : num :=
  match a, b with
  | Some x, Some y => Some (x + y)%Z
  | _, _ => NaN
  end.

(** [Math.round(Math.sqrt(n))] on a length: the integer nearest to the
    square root ([sqrt n] is never half-way between two integers). *)
Definition round_sqrt (n : nat) : nat :=
  let k := Nat.sqrt n in
  if n - k * k <=? k then k else Datatypes.S k.

(** The conversion of a store into a [Uint8ClampedArray], which is the type
    of [ImageData.data]: [NaN] becomes 0, other values are clamped to
    [0, 255]. *)
Definition toUint8Clamp (v : num) : Z :=
  match v with
  | None => 0
  | Some z => Z.max 0 (Z.min 255 z)
  end.

(** What a store into a plain [Uint8Array] would keep: the value modulo
    256.  The pipeline never uses it; it is here for comparison. *)
Definition toUint8Wrap (v : num) : Z :=
  match v with
  | None => 0
  | Some z => z mod 256
  end.

End JS.

(** ** Completions

    A call returns a value or throws. *)

Inductive Exception : Type :=
  | DOMException (name : string)
  | Error (message : string).

Inductive Completion (A : Type) : Type :=
  | Return (a : A)
  | Throw (e : Exception).

Arguments Return {A} a.
Arguments Throw {A} e.

Global Instance completion_bind : MBind Completion := λ A B k m,
  match m with
  | Return a => k a
  | Throw e => Throw e
  end.

(** [try { body } catch (e) { handler e }] *)
Definition try_catch {A} (body : Completion A) (handler : Exception → Completion A)
    : Completion A :=
  match body with
  | Return a => Return a
  | Throw e => handler e
  end.

Definition returns {A} (m : Completion A) : bool :=
  match m with Return _ => true | Throw _ => false end.

(** ** Image data and the convolution ([applyConvolution]) *)

Module Convolution.

Import JS.

(** [ImageData]: [data] holds four channels per pixel, row by row. *)
Record ImageData := mkImageData {
  width : nat;
  height : nat;
  data : list Z
}.

Definition wf_image (img : ImageData) : Prop :=
  length (data img) = width img * height img * 4 ∧
  Forall (λ v, 0 ≤ v ≤ 255)%Z (data img).

(** The two arrays the loops work on: [src] is [imageData.data], [dst] is
    [output.data]. *)
Record Arrays := mkArrays {
  src : list Z;
  dst : list Z
}.

Definition RGB : Type := num * num * num.

Section Loops.

Variables (sw sh : nat) (kernel : list Z).

Definition side : nat := round_sqrt (length kernel).
Definition halfSide : nat := side / 2.

Definition in_bounds (scy scx : Z) : bool :=
  bool_decide (0 ≤ scy)%Z && bool_decide (scy < Z.of_nat sh)%Z &&
  bool_decide (0 ≤ scx)%Z && bool_decide (scx < Z.of_nat sw)%Z.

Definition srcOff (scy scx : Z) : nat :=
  Z.to_nat ((scy * Z.of_nat sw + scx) * 4).

(** The body of the innermost loop, lines 27 to 36. *)
Definition tap (s : list Z) (sy sx cy cx : nat) (acc : RGB) : RGB :=
  let scy := (Z.of_nat sy + Z.of_nat cy - Z.of_nat halfSide)%Z in
  let scx := (Z.of_nat sx + Z.of_nat cx - Z.of_nat halfSide)%Z in
  if in_bounds scy scx then
    let off := srcOff scy scx in
    let wt := kernel !! (cy * side + cx) in
    let '(r, g, b) := acc in
    (add r (mul (s !! off) wt),
     add g (mul (s !! (off + 1)) wt),
     add b (mul (s !! (off + 2)) wt))
  else acc.

(** The two kernel loops, lines 23 to 38. *)
Definition accumulate (s : list Z) (sy sx : nat) : RGB :=
  for_loop side (λ cy acc,
    for_loop side (λ cx acc, tap s sy sx cy cx acc) acc)
    (Some 0%Z, Some 0%Z, Some 0%Z).

(** One destination pixel, lines 19 to 43.  [dst] is the [data] of the
    image data made by [ctx.createImageData], a [Uint8ClampedArray]: each
    store goes through [toUint8Clamp], and a store past the end is
    ignored. *)
Definition pixel (y x : nat) (a : Arrays) : Arrays :=
  let dstOff := (y * sw + x) * 4 in
  let '(r, g, b) := accumulate (src a) y x in
  let d := <[dstOff := toUint8Clamp r]> (dst a) in
  let d := <[dstOff + 1 := toUint8Clamp g]> d in
  let d := <[dstOff + 2 := toUint8Clamp b]> d in
  let d := <[dstOff + 3 := toUint8Clamp (src a !! (dstOff + 3))]> d in
  {| src := src a; dst := d |}.

(** The loops over the rows and columns, lines 17 to 45. *)
Definition rows (a : Arrays) : Arrays :=
  for_loop sh (λ y a, for_loop sw (λ x a, pixel y x a) a) a.

End Loops.

(** A transparent black buffer. *)
Definition blank (w h : nat) : ImageData :=
  {| width := w; height := h; data := replicate (w * h * 4) 0%Z |}.

(** Lines 7 to 45: from the image data read off the canvas to the output
    image data, with the source array as it is left behind. *)
Definition convolve (img : ImageData) (kernel : list Z) : ImageData * list Z :=
  let sw := width img in
  let sh := height img in
  let output := blank sw sh in
  let a := rows sw sh kernel {| src := data img; dst := data output |} in
  ({| width := sw; height := sh; data := dst a |}, src a).

(** *** What the loops compute *)

(** The contribution of one kernel tap to channel [c] of the pixel at
    [(sx, sy)]: the weighted source channel inside the image, zero
    outside. *)
Definition contribution (sw sh : nat) (kernel : list Z) (s : list Z)
    (sy sx c cy cx : nat) : num :=
  let scy := (Z.of_nat sy + Z.of_nat cy - Z.of_nat (halfSide kernel))%Z in
  let scx := (Z.of_nat sx + Z.of_nat cx - Z.of_nat (halfSide kernel))%Z in
  if in_bounds sw sh scy scx
  then mul (s !! (srcOff sw scy scx + c)) (kernel !! (cy * side kernel + cx))
  else Some 0%Z.

(** The weighted sum of channel [c] over the whole footprint of the
    kernel. *)
Definition weighted_sum (sw sh : nat) (kernel : list Z) (s : list Z)
    (sy sx c : nat) : num :=
  for_loop (side kernel) (λ cy acc,
    for_loop (side kernel) (λ cx acc,
      add acc (contribution sw sh kernel s sy sx c cy cx)) acc)
    (Some 0%Z).

(** The value the loops leave in channel [c] of the pixel at [(x, y)]. *)
Definition stored (sw sh : nat) (kernel : list Z) (s : list Z)
    (y x c : nat) : Z :=
  if c <? 3 then toUint8Clamp (weighted_sum sw sh kernel s y x c)
  else toUint8Clamp (s !! ((y * sw + x) * 4 + 3)).

(** *** The canvas side: [getImageData], [createImageData],
    [putImageData]

    The bitmap of the canvas, as [getImageData] shows it: four 8-bit
    channels per pixel.  A request for a rectangle of no width or no height
    throws [IndexSizeError]; pixels of the rectangle outside the canvas
    read as transparent black, and [putImageData] writes only the pixels
    that fall inside the canvas.  A real canvas stores its colours
    premultiplied by alpha, so that a colour written under an alpha below
    255 may read back changed by one step; on opaque pixels what is written
    is what is read, which is the case this record shows. *)
Record Bitmap := mkBitmap {
  bwidth : nat;
  bheight : nat;
  pixels : list Z
}.

Definition readChannel (cv : Bitmap) (y x c : nat) : Z :=
  if (x <? bwidth cv) && (y <? bheight cv)
  then default 0%Z (pixels cv !! ((y * bwidth cv + x) * 4 + c))
  else 0%Z.

Definition readRect (cv : Bitmap) (sw sh : nat) : ImageData :=
  {| width := sw; height := sh;
     data := y ← seq 0 sh; x ← seq 0 sw; c ← seq 0 4; [readChannel cv y x c]
  |}.

Definition getImageData (cv : Bitmap) (sw sh : nat) : Completion ImageData :=
  if (sw =? 0) || (sh =? 0) then Throw (DOMException "IndexSizeError")
  else Return (readRect cv sw sh).

Definition createImageData (sw sh : nat) : Completion ImageData :=
  if (sw =? 0) || (sh =? 0) then Throw (DOMException "IndexSizeError")
  else Return (blank sw sh).

Definition putImageData (cv : Bitmap) (img : ImageData) : Bitmap :=
  {| bwidth := bwidth cv; bheight := bheight cv;
     pixels := imap (λ i old,
       let y := i / 4 / bwidth cv in
       let x := (i / 4) mod bwidth cv in
       if (x <? width img) && (y <? height img)
       then default old (data img !! ((y * width img + x) * 4 + i mod 4))
       else old) (pixels cv) |}.

(** [applyConvolution(ctx, width, height, kernel)], lines 5 to 47. *)
Definition applyConvolution (cv : Bitmap) (width height : nat)
    (kernel : list Z) : Completion Bitmap :=
  imageData ← getImageData cv width height;
  output ← createImageData width height;
  let a := rows width height kernel
             {| src := data imageData; dst := data output |} in
  Return (putImageData cv
            {| width := width; height := height; data := dst a |}).

(** The sharpening kernel of lines 62 to 66 of [processSonyLook], which
    declares it and passes it to no call. *)
Definition sharpenKernel : list Z := [0; -1; 0; -1; 5; -1; 0; -1; 0]%Z.

(** The identity kernel of side [2 m + 1]: zero everywhere but for a
    weight of one in the centre. *)
Definition identityKernel (m : nat) : list Z :=
  let n := 2 * m + 1 in
  <[m * n + m := 1%Z]> (replicate (n * n) 0%Z).

(** The state of the arrays once the first [k] pixels, in row order, have
    been written. *)
Definition written (sw sh : nat) (kernel : list Z) (a0 a : Arrays)
    (k : nat) : Prop :=
  src a = src a0 ∧
  length (dst a) = length (dst a0) ∧
  ∀ y x c, x < sw → y * sw + x < k → c < 4 →
    dst a !! ((y * sw + x) * 4 + c) =
    Some (stored sw sh kernel (src a0) y x c).

(** Two inputs to run the definitions on. *)
Definition sample_image : ImageData :=
  {| width := 2; height := 1;
     data := [200; 100; 50; 255; 10; 20; 30; 128]%Z |}.

Definition one_pixel : Bitmap :=
  {| bwidth := 1; bheight := 1; pixels := [200; 100; 50; 255]%Z |}.

End Convolution.

(** ** The 2D canvas, in exact arithmetic

    Channel values and opacities are rationals between 0 and 1, and the
    blend and filter formulas are computed exactly.  A real canvas keeps 8
    bits per channel and rounds after every draw and every filter: what is
    computed here is the value before that rounding, and differs from the
    stored one by it.  A pixel of a bitmap holds its colour premultiplied by
    its alpha, as canvas bitmaps do, so that drawing with [source-over] is
    the Porter-Duff formula with no division.  Every [drawImage] of the pipeline draws a source of the
    size of the destination at the origin: pixel [k] of the source lands on
    pixel [k] of the destination. *)

Module Canvas2D.

Local Open Scope Qc_scope.

Definition Qc_of_nat (n : nat) : Qc := Qc_of_Z (Z.of_nat n).

Definition ratio (n d : Z) : Qc := Qc_of_Z n / Qc_of_Z d.

Definition leb (x y : Qc) : bool :=
  match x ?= y with Gt => false | _ => true end.

Definition clamp01 (x : Qc) : Qc :=
  if leb x 0 then 0 else if leb 1 x then 1 else x.

Record Pixel := mkPixel { red : Qc; green : Qc; blue : Qc; alpha : Qc }.

Definition transparent : Pixel := mkPixel 0 0 0 0.

(** A CSS colour [rgba(r, g, b, a)], channels from 0 to 255. *)
Record Colour := rgba { cr : Z; cg : Z; cb : Z; ca : Qc }.

Definition premultiply (c : Colour) : Pixel :=
  {| red := ratio (cr c) 255 * ca c;
     green := ratio (cg c) 255 * ca c;
     blue := ratio (cb c) 255 * ca c;
     alpha := ca c |}.

Inductive CompositeOp := SourceOver | Overlay | SoftLight.

Inductive FilterFn := Contrast (amount : Qc) | Saturate (amount : Qc).

(** What the platform brings in: the square root of the [soft-light]
    formula and the JPEG encoder behind [toDataURL]. *)
Class Platform := {
  sqrt : Qc → Qc;
  jpegEncode : nat → nat → list Pixel → Qc → string
}.

Section Drawing.

Context `{Platform}.

(** *** Blend modes (W3C Compositing and Blending): the blend function
    [B(Cb, Cs)] of a backdrop and a source channel, not premultiplied. *)

Definition multiply (a b : Qc) : Qc := a * b.
Definition screen (a b : Qc) : Qc := a + b - a * b.

Definition hardLight (Cb Cs : Qc) : Qc :=
  if leb Cs (ratio 1 2) then multiply Cb (2 * Cs)
  else screen Cb (2 * Cs - 1).

Definition softLightD (Cb : Qc) : Qc :=
  if leb Cb (ratio 1 4) then ((Qc_of_Z 16 * Cb - Qc_of_Z 12) * Cb + Qc_of_Z 4) * Cb
  else sqrt Cb.

Definition blend (op : CompositeOp) (Cb Cs : Qc) : Qc :=
  match op with
  | SourceOver => Cs
  | Overlay => hardLight Cs Cb
  | SoftLight =>
      if leb Cs (ratio 1 2) then Cb - (1 - 2 * Cs) * Cb * (1 - Cb)
      else Cb + (2 * Cs - 1) * (softLightD Cb - Cb)
  end.

(** One premultiplied channel of the result of drawing a source
    ([cs], of alpha [αs]) at opacity [g] over a backdrop ([cb], of alpha
    [αb]). *)
Definition compositeChannel (op : CompositeOp) (g cs αs cb αb : Qc) : Qc :=
  match op with
  | SourceOver => g * cs + (1 - g * αs) * cb
  | _ =>
      (g * αs) * ((1 - αb) * (cs / αs) + αb * blend op (cb / αb) (cs / αs))
      + (1 - g * αs) * cb
  end.

Definition composite (op : CompositeOp) (g : Qc) (s d : Pixel) : Pixel :=
  {| red := compositeChannel op g (red s) (alpha s) (red d) (alpha d);
     green := compositeChannel op g (green s) (alpha s) (green d) (alpha d);
     blue := compositeChannel op g (blue s) (alpha s) (blue d) (alpha d);
     alpha := g * alpha s + (1 - g * alpha s) * alpha d |}.

(** *** Filters (Filter Effects): on colours not premultiplied, each
    result clamped to the range from 0 to 1. *)

Definition contrast (k c : Qc) : Qc :=
  clamp01 (k * c + (ratio 1 2 - k * ratio 1 2)).

Definition lumR : Qc := ratio 213 1000.
Definition lumG : Qc := ratio 715 1000.
Definition lumB : Qc := ratio 72 1000.

Definition applyFilter (f : FilterFn) (p : Pixel) : Pixel :=
  let a := alpha p in
  let R := red p / a in
  let G := green p / a in
  let B := blue p / a in
  match f with
  | Contrast k =>
      {| red := contrast k R * a; green := contrast k G * a;
         blue := contrast k B * a; alpha := a |}
  | Saturate s =>
      {| red := clamp01 ((lumR + (1 - lumR) * s) * R
                         + (lumG - lumG * s) * G
                         + (lumB - lumB * s) * B) * a;
         green := clamp01 ((lumR - lumR * s) * R
                           + (lumG + (1 - lumG) * s) * G
                           + (lumB - lumB * s) * B) * a;
         blue := clamp01 ((lumR - lumR * s) * R
                          + (lumG - lumG * s) * G
                          + (lumB + (1 - lumB) * s) * B) * a;
         alpha := a |}
  end.

Definition applyFilters (fs : list FilterFn) (p : Pixel) : Pixel :=
  foldl (λ p f, applyFilter f p) p fs.

(** *** The canvas and its drawing state *)

Record State := mkState {
  globalAlpha : Qc;
  globalCompositeOperation : CompositeOp;
  fillStyle : Colour;
  filter : list FilterFn
}.

Definition defaultState : State :=
  {| globalAlpha := 1;
     globalCompositeOperation := SourceOver;
     fillStyle := rgba 0 0 0 1;
     filter := [] |}.

(** [has2d]: whether [getContext('2d')] gives a context. *)
Record Canvas := mkCanvas {
  width : nat;
  height : nat;
  bitmap : list Pixel;
  state : State;
  has2d : bool
}.

(** [document.createElement('canvas')] *)
Definition createCanvas : Canvas :=
  {| width := 300; height := 150;
     bitmap := replicate (300 * 150) transparent;
     state := defaultState; has2d := true |}.

(** [canvas.width = w] and [canvas.height = h]: each clears the bitmap
    and puts the drawing state back to its defaults. *)
Definition setWidth (w : nat) (c : Canvas) : Canvas :=
  {| width := w; height := height c;
     bitmap := replicate (w * height c) transparent;
     state := defaultState; has2d := has2d c |}.

Definition setHeight (h : nat) (c : Canvas) : Canvas :=
  {| width := width c; height := h;
     bitmap := replicate (width c * h) transparent;
     state := defaultState; has2d := has2d c |}.

Definition withBitmap (b : list Pixel) (c : Canvas) : Canvas :=
  {| width := width c; height := height c; bitmap := b;
     state := state c; has2d := has2d c |}.

Definition withState (s : State) (c : Canvas) : Canvas :=
  {| width := width c; height := height c; bitmap := bitmap c;
     state := s; has2d := has2d c |}.

Definition setGlobalAlpha (g : Qc) (c : Canvas) : Canvas :=
  withState {| globalAlpha := g;
               globalCompositeOperation := globalCompositeOperation (state c);
               fillStyle := fillStyle (state c);
               filter := filter (state c) |} c.

Definition setGlobalCompositeOperation (op : CompositeOp) (c : Canvas) : Canvas :=
  withState {| globalAlpha := globalAlpha (state c);
               globalCompositeOperation := op;
               fillStyle := fillStyle (state c);
               filter := filter (state c) |} c.

Definition setFillStyle (col : Colour) (c : Canvas) : Canvas :=
  withState {| globalAlpha := globalAlpha (state c);
               globalCompositeOperation := globalCompositeOperation (state c);
               fillStyle := col;
               filter := filter (state c) |} c.

Definition setFilter (fs : list FilterFn) (c : Canvas) : Canvas :=
  withState {| globalAlpha := globalAlpha (state c);
               globalCompositeOperation := globalCompositeOperation (state c);
               fillStyle := fillStyle (state c);
               filter := fs |} c.

(** [ctx.clearRect(0, 0, width, height)] over the whole canvas. *)
Definition clearRect (c : Canvas) : Canvas :=
  withBitmap ((λ _, transparent) <$> bitmap c) c.

(** Drawing a pixel with the current filter, opacity and blend mode. *)
Definition paint (s : State) (src dst : Pixel) : Pixel :=
  composite (globalCompositeOperation s) (globalAlpha s)
            (applyFilters (filter s) src) dst.

(** [ctx.drawImage(source, 0, 0)]; [source k] is pixel [k] of the
    source. *)
Definition drawImage (source : nat → Pixel) (c : Canvas) : Canvas :=
  withBitmap (imap (λ k d, paint (state c) (source k) d) (bitmap c)) c.

(** [ctx.fillRect(0, 0, width, height)] over the whole canvas. *)
Definition fillRect (c : Canvas) : Canvas :=
  withBitmap
    ((λ d, paint (state c) (premultiply (fillStyle (state c))) d)
       <$> bitmap c) c.

(** A canvas as the source of a [drawImage]. *)
Definition pixelsOf (c : Canvas) : nat → Pixel :=
  λ k, default transparent (bitmap c !! k).

(** [canvas.toDataURL('image/jpeg', quality)] *)
Definition toDataURL (quality : Qc) (c : Canvas) : string :=
  if (width c =? 0)%nat || (height c =? 0)%nat then "data:,"
  else jpegEncode (width c) (height c) (bitmap c) quality.

(** *** [processSonyLook], lines 56 to 110

    The function is given here for canvases of a width and a height other
    than zero.  On a canvas of no width or no height the call
    [tempCtx.drawImage(canvas, 0, 0)] of line 82 throws [InvalidStateError],
    which this total function does not show: what is proved of it, and of
    [performStacking] and the captures that call it, is proved of canvases
    and videos of nonzero size. *)

(** ['contrast(1.15) saturate(1.1)'] *)
Definition lookFilter : list FilterFn :=
  [Contrast (ratio 115 100); Saturate (ratio 11 10)].

Definition processSonyLook (canvas : Canvas) : Canvas :=
  if negb (has2d canvas) then canvas
  else
    let w := width canvas in
    let h := height canvas in
    let tempCanvas := setHeight h (setWidth w createCanvas) in
    if has2d tempCanvas then
      let tempCanvas := drawImage (pixelsOf canvas) tempCanvas in
      let canvas := clearRect canvas in
      let canvas := drawImage (pixelsOf tempCanvas) canvas in
      let canvas := setGlobalCompositeOperation Overlay canvas in
      let canvas := setFillStyle (rgba 0 0 20 (ratio 1 10)) canvas in
      let canvas := fillRect canvas in
      let canvas := setGlobalCompositeOperation SoftLight canvas in
      let canvas := setFillStyle (rgba 255 150 50 (ratio 15 100)) canvas in
      let canvas := fillRect canvas in
      let canvas := setGlobalCompositeOperation SourceOver canvas in
      let canvas := setFilter lookFilter canvas in
      let canvas := drawImage (pixelsOf tempCanvas) canvas in
      setFilter [] canvas
    else canvas.

(** *** [performStacking], lines 116 to 157 *)

(** The video element: its intrinsic size and, for each sample taken
    from it, the frame it shows then. *)
Record Video := mkVideo {
  videoWidth : nat;
  videoHeight : nat;
  frame : nat → nat → Pixel
}.

Definition frameCount : nat := 4.

(** The loop of lines 135 to 149, for a number [n] of frames. *)
Definition stackFrames (n : nat) (videoElement : Video) (canvas : Canvas)
    : Canvas :=
  for_loop n (λ i canvas,
    let canvas := setGlobalAlpha (1 / Qc_of_nat (i + 1)) canvas in
    drawImage (frame videoElement i) canvas) canvas.

(** The canvas on which [processSonyLook] is called, line 154. *)
Definition stacked (videoElement : Video) (canvas : Canvas) : Canvas :=
  let w := videoWidth videoElement in
  let h := videoHeight videoElement in
  let canvas := setHeight h (setWidth w canvas) in
  let canvas := clearRect canvas in
  let canvas := stackFrames frameCount videoElement canvas in
  setGlobalAlpha 1 canvas.

Definition performStacking (videoElement : Video) (canvas : Canvas)
    : Completion (Canvas * string) :=
  if negb (has2d canvas) then Throw (Error "No canvas context")
  else
    let canvas := stacked videoElement canvas in
    let canvas := processSonyLook canvas in
    Return (canvas, toDataURL (ratio 95 100) canvas).

End Drawing.

(** *** The stacking and the look in the words of the specification *)

Section Specification.

Context `{Platform}.

(** A sample composited with opacity [opacity] over the accumulator. *)
Definition over (opacity : Qc) (sample acc : Pixel) : Pixel :=
  {| red := opacity * red sample + (1 - opacity * alpha sample) * red acc;
     green := opacity * green sample
              + (1 - opacity * alpha sample) * green acc;
     blue := opacity * blue sample + (1 - opacity * alpha sample) * blue acc;
     alpha := opacity * alpha sample
              + (1 - opacity * alpha sample) * alpha acc |}.



(** The plain arithmetic mean of the first [n] values of [f]. *)
Definition sumQc (n : nat) (f : nat → Qc) : Qc :=
  for_loop n (λ i acc, acc + f i) 0.

Definition arithmeticMean (n : nat) (f : nat → Qc) : Qc :=
  sumQc n f / Qc_of_nat n.

Definition meanPixel (n : nat) (f : nat → Pixel) : Pixel :=
  {| red := arithmeticMean n (λ i, red (f i));
     green := arithmeticMean n (λ i, green (f i));
     blue := arithmeticMean n (λ i, blue (f i));
     alpha := arithmeticMean n (λ i, alpha (f i)) |}.

(** A video whose [i]-th frame is of one colour, opaque. *)
Definition solidVideo (w h : nat) (colours : nat → Qc * Qc * Qc) : Video :=
  {| videoWidth := w; videoHeight := h;
     frame := λ i _, let '(r, g, b) := colours i in mkPixel r g b 1 |}.

(** The three stages of the look, each on the result of the one before:
    the dark blue tint, the warm orange tint, then contrast and
    saturation. *)
Definition shadowTint (p : Pixel) : Pixel :=
  composite Overlay 1 (premultiply (rgba 0 0 20 (ratio 1 10))) p.

Definition warmthTint (p : Pixel) : Pixel :=
  composite SoftLight 1 (premultiply (rgba 255 150 50 (ratio 15 100))) p.

Definition stagedLook (b : list Pixel) : list Pixel :=
  (λ p, applyFilters lookFilter (warmthTint (shadowTint p))) <$> b.

(** The mean of the first [i] frames at pixel [k]; the cleared canvas
    before the first. *)
Definition meanSoFar (videoElement : Video) (i k : nat) : Pixel :=
  match i with
  | 0%nat => transparent
  | _ => meanPixel i (λ j, frame videoElement j k)
  end.

End Specification.

(** *** A platform to run the definitions on

    Six steps of Newton's iteration stand for the square root, and a fixed
    header for the encoded image. *)

Definition newtonSqrt (x : Qc) : Qc :=
  for_loop 6 (λ _ y, (y + x / y) / 2) 1.

Definition examplePlatform : Platform :=
  {| sqrt := newtonSqrt;
     jpegEncode := λ _ _ _ _, "data:image/jpeg;base64,/9j/" |}.

(** A canvas of one opaque dark gray pixel, in its default state. *)
Definition darkGray : Pixel := mkPixel (ratio 1 5) (ratio 1 5) (ratio 1 5) 1.

Definition darkGrayCanvas : Canvas :=
  {| width := 1; height := 1; bitmap := [darkGray];
     state := defaultState; has2d := true |}.

(** A video of two by one pixels that shows red, then green, then blue,
    then white. *)
Definition fourColours (i : nat) : Qc * Qc * Qc :=
  match i with
  | 0%nat => (1, 0, 0)
  | 1%nat => (0, 1, 0)
  | 2%nat => (0, 0, 1)
  | _ => (1, 1, 1)
  end.

End Canvas2D.

(** ** The scene analysis ([analyzeImageScene]) *)

Module Gemini.

(** The remote collaborator: the two calls made on [ai.models].  Either
    may throw; the text of a response may be missing. *)
Record Client := mkClient {
  getGenerativeModel : Completion unit;
  generateContent : option string → Completion (option string)
}.

(** [s.split(',')[1]]: what stands between the first comma and the next,
    [None] ([undefined]) without a comma. *)
Definition comma : Ascii.ascii := Ascii.ascii_of_nat 44.

Fixpoint beforeComma (s : string) : string :=
  match s with
  | EmptyString => EmptyString
  | String c r => if Ascii.eqb c comma then EmptyString
                  else String c (beforeComma r)
  end.

Fixpoint afterComma (s : string) : option string :=
  match s with
  | EmptyString => None
  | String c r => if Ascii.eqb c comma then Some r else afterComma r
  end.

Definition splitComma1 (s : string) : option string :=
  beforeComma <$> afterComma s.

Definition isEmpty (s : string) : bool :=
  match s with EmptyString => true | _ => false end.

(** [text || fallback] *)
Definition orElse (text : option string) (fallback : string) : string :=
  match text with
  | Some t => if isEmpty t then fallback else t
  | None => fallback
  end.

Definition keyMissing : string := "API Key missing. AI features disabled.".
Definition analysisFailed : string := "Analysis failed.".
Definition couldNotAnalyze : string := "Could not analyze scene.".

(** Lines 24 to 58. *)
Definition analyzeImageScene (apiKey : string) (ai : Client)
    (base64Image : string) : Completion string :=
  if isEmpty apiKey then Return keyMissing
  else
    try_catch
      (model ← getGenerativeModel ai;
       let base64Data := splitComma1 base64Image in
       response ← generateContent ai base64Data;
       Return (orElse response analysisFailed))
      (λ error, Return couldNotAnalyze).

End Gemini.

(** ** The application state and its handlers ([App.tsx]) *)

Module App.

Import Canvas2D Gemini.

Inductive CameraMode := PHOTO | VIDEO | PRO.

Record CameraSettings := mkSettings {
  iso : nat;
  shutterSpeed : string;
  aperture : string;
  wb : string;
  ev : string
}.

Definition DEFAULT_SETTINGS : CameraSettings :=
  {| iso := 100; shutterSpeed := "1/250"; aperture := "f/1.4";
     wb := "AWB"; ev := "+0.0" |}.

(** [{ ...settings, mode }] *)
Record Metadata := mkMetadata {
  m_settings : CameraSettings;
  m_mode : CameraMode
}.

Record CapturedImage := mkCapturedImage {
  id : string;
  url : string;
  timestamp : N;
  imageWidth : nat;
  imageHeight : nat;
  isEnhanced : bool;
  metadata : Metadata
}.

(** The component state the two handlers read and write, with the video
    and the canvas behind the two refs. *)
Record AppState := mkAppState {
  mode : CameraMode;
  isCapturing : bool;
  photos : list CapturedImage;
  settings : CameraSettings;
  videoRef : option Video;
  canvasRef : option Canvas;
  isAnalyzing : bool;
  aiAnalysis : option string
}.

Definition setIsCapturing (b : bool) (s : AppState) : AppState :=
  {| mode := mode s; isCapturing := b; photos := photos s;
     settings := settings s; videoRef := videoRef s;
     canvasRef := canvasRef s; isAnalyzing := isAnalyzing s;
     aiAnalysis := aiAnalysis s |}.

Definition setPhotos (f : list CapturedImage → list CapturedImage)
    (s : AppState) : AppState :=
  {| mode := mode s; isCapturing := isCapturing s; photos := f (photos s);
     settings := settings s; videoRef := videoRef s;
     canvasRef := canvasRef s; isAnalyzing := isAnalyzing s;
     aiAnalysis := aiAnalysis s |}.

Definition setCanvas (c : Canvas) (s : AppState) : AppState :=
  {| mode := mode s; isCapturing := isCapturing s; photos := photos s;
     settings := settings s; videoRef := videoRef s;
     canvasRef := Some c; isAnalyzing := isAnalyzing s;
     aiAnalysis := aiAnalysis s |}.

Definition setIsAnalyzing (b : bool) (s : AppState) : AppState :=
  {| mode := mode s; isCapturing := isCapturing s; photos := photos s;
     settings := settings s; videoRef := videoRef s;
     canvasRef := canvasRef s; isAnalyzing := b;
     aiAnalysis := aiAnalysis s |}.

Definition setAiAnalysis (a : option string) (s : AppState) : AppState :=
  {| mode := mode s; isCapturing := isCapturing s; photos := photos s;
     settings := settings s; videoRef := videoRef s;
     canvasRef := canvasRef s; isAnalyzing := isAnalyzing s;
     aiAnalysis := a |}.

(** [lastPhotoUrl={photos[0]?.url}] *)
Definition lastPhotoUrl (s : AppState) : option string :=
  url <$> head (photos s).

(** The two readings of [Date.now()] of lines 145 and 147. *)
Record Clock := mkClock { idNow : N; stampNow : N }.

(** A capture in flight: the [mode] and [settings] of the render whose
    handler was called. *)
Record Pending := mkPending {
  p_mode : CameraMode;
  p_settings : CameraSettings
}.

(** The promise a call of [handleCapture] returns: settled at once, or
    waiting for the capture it has started. *)
Inductive Promise :=
  | Settled (c : Completion unit)
  | Waiting (p : Pending).

Definition isPRO (m : CameraMode) : bool :=
  match m with PRO => true | _ => false end.

Section Handlers.

Context `{Platform}.

(** [handleCapture] up to its first [await], lines 117 to 120. *)
Definition handleCapture_call (s : AppState) : AppState * Promise :=
  match videoRef s, canvasRef s with
  | Some _, Some _ =>
      if isCapturing s then (s, Settled (Return tt))
      else (setIsCapturing true s,
            Waiting {| p_mode := mode s; p_settings := settings s |})
  | _, _ => (s, Settled (Return tt))
  end.

(** The normal capture, lines 130 to 140. *)
Definition normalCapture (video : Video) (canvas : Canvas)
    : Canvas * string :=
  let canvas := setWidth (videoWidth video) canvas in
  let canvas := setHeight (videoHeight video) canvas in
  if has2d canvas then
    let canvas := drawImage (frame video 0) canvas in
    let canvas := processSonyLook canvas in
    (canvas, toDataURL (ratio 95 100) canvas)
  else (canvas, EmptyString).

(** Lines 123 to 141: the data URL, or what was thrown. *)
Definition takePicture (m : CameraMode) (video : Video) (canvas : Canvas)
    : Completion (Canvas * string) :=
  if isPRO m then performStacking video canvas
  else Return (normalCapture video canvas).

Definition newPhoto (p : Pending) (clock : Clock) (canvas : Canvas)
    (dataUrl : string) : CapturedImage :=
  {| id := pretty (idNow clock);
     url := dataUrl;
     timestamp := stampNow clock;
     imageWidth := width canvas;
     imageHeight := height canvas;
     isEnhanced := isPRO (p_mode p);
     metadata := {| m_settings := p_settings p; m_mode := p_mode p |} |}.

(** The rest of [handleCapture], lines 122 to 159: the [try], the
    [catch] and the [finally]. *)
Definition handleCapture_settle (p : Pending) (clock : Clock)
    (s : AppState) : AppState * Completion unit :=
  let s :=
    match videoRef s, canvasRef s with
    | Some video, Some canvas =>
        match takePicture (p_mode p) video canvas with
        | Return (canvas, dataUrl) =>
            let s := setCanvas canvas s in
            if isEmpty dataUrl then s
            else setPhotos (λ prev, newPhoto p clock canvas dataUrl :: prev) s
        | Throw e => s
        end
    | _, _ => s
    end in
  (setIsCapturing false s, Return tt).

(** A call of [handleCapture] followed to its end. *)
Definition capture (clock : Clock) (s : AppState) : AppState :=
  match handleCapture_call s with
  | (s, Waiting p) => (handleCapture_settle p clock s).1
  | (s, Settled _) => s
  end.

Definition captures (clocks : list Clock) (s : AppState) : AppState :=
  foldl (λ s clock, capture clock s) s clocks.

(** The artifact a capture started in [s] adds, if it adds one. *)
Definition artifact (clock : Clock) (s : AppState) : option CapturedImage :=
  match handleCapture_call s with
  | (s', Waiting p) =>
      match videoRef s', canvasRef s' with
      | Some video, Some canvas =>
          match takePicture (p_mode p) video canvas with
          | Return (canvas, dataUrl) =>
              if isEmpty dataUrl then None
              else Some (newPhoto p clock canvas dataUrl)
          | Throw _ => None
          end
      | _, _ => None
      end
  | _ => None
  end.

(** The artifacts of a sequence of captures, in the order in which the
    captures completed. *)
Fixpoint artifacts (clocks : list Clock) (s : AppState)
    : list CapturedImage :=
  match clocks with
  | [] => []
  | clock :: rest =>
      match artifact clock s with
      | Some a => a :: artifacts rest (capture clock s)
      | None => artifacts rest (capture clock s)
      end
  end.

(** [handleAiAnalysis], lines 162 to 173. *)
Definition handleAiAnalysis (apiKey : string) (ai : Client)
    (photo : CapturedImage) (s : AppState) : AppState :=
  let s := setIsAnalyzing true s in
  let s := setAiAnalysis None s in
  let s :=
    match analyzeImageScene apiKey ai (url photo) with
    | Return result => setAiAnalysis (Some result) s
    | Throw e => setAiAnalysis (Some "AI Service Unavailable.") s
    end in
  setIsAnalyzing false s.

End Handlers.

Definition idle : AppState :=
  {| mode := PRO; isCapturing := false; photos := [];
     settings := DEFAULT_SETTINGS;
     videoRef := Some (solidVideo 2 1 fourColours);
     canvasRef := Some darkGrayCanvas;
     isAnalyzing := false; aiAnalysis := None |}.

End App.

(** ** Well-formed canvases *)

Module CanvasData.

Import Convolution.

(** The bitmap behind a canvas of [bwidth] by [bheight] pixels: four
    channels per pixel, each an 8-bit value. *)
Definition wf_bitmap (cv : Bitmap) : Prop :=
  length (pixels cv) = bwidth cv * bheight cv * 4 ∧
  Forall (λ v, 0 ≤ v ≤ 255)%Z (pixels cv).

(** The image data of the whole canvas. *)
Definition wholeCanvas (cv : Bitmap) : ImageData :=
  {| width := bwidth cv; height := bheight cv; data := pixels cv |}.

(** A canvas whose every pixel has full alpha.  On such pixels the
    premultiplied store of a canvas keeps the colours as they are written. *)
Definition opaqueBitmap (cv : Bitmap) : Prop :=
  ∀ p, p < bwidth cv * bheight cv → pixels cv !! (p * 4 + 3) = Some 255%Z.

End CanvasData.

(** ** The footprint of a kernel, stated apart from the loops *)

Module Footprint.

Import JS Convolution.

(** A source coordinate inside the image: row in [0, sh), column in
    [0, sw). *)
Definition inside (sw sh : nat) (scy scx : Z) : Prop :=
  (0 ≤ scy < Z.of_nat sh)%Z ∧ (0 ≤ scx < Z.of_nat sw)%Z.

(** The sum of [g 0], ..., [g (n - 1)]. *)
Fixpoint sumTo (n : nat) (g : nat → num) : num :=
  match n with
  | 0 => Some 0%Z
  | S n => add (sumTo n g) (g n)
  end.

(** What the tap [(cy, cx)] of the kernel counts for in channel [c] of the
    pixel at [(sx, sy)]: the source channel at the coordinate the tap falls
    on times the weight of the tap when that coordinate is inside the image,
    and zero when it is outside. *)
Definition tapValue (sw sh : nat) (kernel : list Z) (s : list Z)
    (sy sx c cy cx : nat) : num :=
  let scy := (Z.of_nat sy + Z.of_nat cy - Z.of_nat (halfSide kernel))%Z in
  let scx := (Z.of_nat sx + Z.of_nat cx - Z.of_nat (halfSide kernel))%Z in
  if decide ((0 ≤ scy < Z.of_nat sh)%Z ∧ (0 ≤ scx < Z.of_nat sw)%Z)
  then mul (s !! (Z.to_nat ((scy * Z.of_nat sw + scx) * 4) + c))
           (kernel !! (cy * side kernel + cx))
  else Some 0%Z.

(** The sum over the footprint of the kernel centred at [(sx, sy)]. *)
Definition footprintSum (sw sh : nat) (kernel : list Z) (s : list Z)
    (sy sx c : nat) : num :=
  sumTo (side kernel) (λ cy,
    sumTo (side kernel) (λ cx, tapValue sw sh kernel s sy sx c cy cx)).

End Footprint.

(** ** Pixels: a notion to state properties with *)

Module Pixels.

Import Canvas2D.
Local Open Scope Qc_scope.

(** A pixel with every channel between 0 and 1 and full alpha. *)
Definition inGamut (p : Pixel) : Prop :=
  alpha p = 1 ∧ 0 ≤ red p ≤ 1 ∧ 0 ≤ green p ≤ 1 ∧ 0 ≤ blue p ≤ 1.

End Pixels.

(** ** Inputs to run the handlers on *)

Module Samples.

Import Canvas2D App.

(** A video of one pixel that never changes. *)
Definition stillVideo : Video :=
  {| videoWidth := 1; videoHeight := 1; frame := λ _ _, darkGray |}.

(** A canvas that gives no 2d context, and a state whose canvas it is. *)
Definition blindCanvas : Canvas :=
  {| width := 1; height := 1; bitmap := [darkGray];
     state := defaultState; has2d := false |}.

Definition blind : AppState :=
  {| mode := PRO; isCapturing := false; photos := [];
     settings := DEFAULT_SETTINGS;
     videoRef := Some stillVideo; canvasRef := Some blindCanvas;
     isAnalyzing := false; aiAnalysis := None |}.

Definition noon : Clock :=
  {| idNow := 1700000000000%N; stampNow := 1700000000001%N |}.

End Samples.

(** ** Starting the camera and the simulated metering ([App.tsx]) *)

Module Camera.

Import App.

(** A media stream, by a number that tells streams apart. *)
Definition MediaStream : Type := nat.

(** What [startCamera] reads and writes: the three pieces of state, the
    [srcObject] of the video element, and the streams whose tracks have been
    stopped. *)
Record CameraState := mkCameraState {
  stream : option MediaStream;
  isLoading : bool;
  cameraError : option string;
  srcObject : option MediaStream;
  stopped : list MediaStream
}.

(** The devices: what [getUserMedia] answers to the preferred constraints
    and to the fallback ones, and what [play()] answers. *)
Record Devices := mkDevices {
  preferred : Completion MediaStream;
  fallback : Completion MediaStream;
  play : Completion unit
}.

Definition sensorError : string := "SENSOR ERROR: ACCESS DENIED OR NOT FOUND".

(** Lines 53 to 71: the preferred constraints, then any camera. *)
Definition acquire (env : Devices) : Completion MediaStream :=
  try_catch (preferred env) (λ err, fallback env).

(** Lines 41 to 86.  [closureStream] is the [stream] the callback closed
    over, [hasVideo] whether [videoRef.current] is set. *)
Definition startCamera (closureStream : option MediaStream) (env : Devices)
    (hasVideo : bool) (s : CameraState) : CameraState :=
  let s := {| stream := stream s; isLoading := true; cameraError := None;
              srcObject := srcObject s; stopped := stopped s |} in
  let s := match closureStream with
           | Some old => {| stream := stream s; isLoading := isLoading s;
                            cameraError := cameraError s;
                            srcObject := srcObject s;
                            stopped := old :: stopped s |}
           | None => s
           end in
  let '(s, outcome) :=
    match acquire env with
    | Throw e => (s, Throw e)
    | Return mediaStream =>
        let s := {| stream := Some mediaStream; isLoading := isLoading s;
                    cameraError := cameraError s; srcObject := srcObject s;
                    stopped := stopped s |} in
        if hasVideo then
          ({| stream := stream s; isLoading := isLoading s;
              cameraError := cameraError s; srcObject := Some mediaStream;
              stopped := stopped s |}, play env)
        else (s, Return tt)
    end in
  let s := match outcome with
           | Throw err => {| stream := stream s; isLoading := isLoading s;
                             cameraError := Some sensorError;
                             srcObject := srcObject s; stopped := stopped s |}
           | Return _ => s
           end in
  {| stream := stream s; isLoading := false; cameraError := cameraError s;
     srcObject := srcObject s; stopped := stopped s |}.

(** [useCallback(..., [])]: the callback of the first render, whose
    [stream] is the initial [null], is the one every call runs. *)
Definition startCameraCallback : Devices → bool → CameraState → CameraState :=
  startCamera None.

(** *** The simulated light metering, lines 102 to 115 *)

(** A value of [Math.random()]: the rational [hits / (hits + misses + 1)],
    at least 0 and below 1. *)
Record Draw := mkDraw { hits : nat; misses : nat }.

(** [Math.floor(Math.random() * n)], with the product taken exactly.  The
    code floors the product rounded to a double, which at some draws is the
    next integer; either way the result is below [n]. *)
Definition pick (d : Draw) (n : nat) : nat :=
  hits d * n / (hits d + misses d + 1).

Definition isos : list nat := [100; 125; 160; 200; 400; 800].
Definition shutters : list string := ["1/500"; "1/250"; "1/1000"; "1/125"].

(** The update of [settings] of one tick; an index past the end of a table
    would give [undefined], here the default of the lookup. *)
Definition meter (d1 d2 : Draw) (prev : CameraSettings) : CameraSettings :=
  {| iso := default 0 (isos !! pick d1 (length isos));
     shutterSpeed := default EmptyString (shutters !! pick d2 (length shutters));
     aperture := aperture prev;
     wb := wb prev;
     ev := ev prev |}.

Definition setSettings (f : CameraSettings → CameraSettings) (s : AppState)
    : AppState :=
  {| mode := mode s; isCapturing := isCapturing s; photos := photos s;
     settings := f (settings s); videoRef := videoRef s;
     canvasRef := canvasRef s; isAnalyzing := isAnalyzing s;
     aiAnalysis := aiAnalysis s |}.

(** [setMode], the mode dial of the controls. *)
Definition setMode (m : CameraMode) (s : AppState) : AppState :=
  {| mode := m; isCapturing := isCapturing s; photos := photos s;
     settings := settings s; videoRef := videoRef s;
     canvasRef := canvasRef s; isAnalyzing := isAnalyzing s;
     aiAnalysis := aiAnalysis s |}.

End Camera.

(** * Proofs *)

(** ** For loops *)

Lemma for_loop_0 {S} (body : nat → S → S) s : for_loop 0 body s = s.
Proof. reflexivity. Qed.

Lemma for_loop_S {S} n (body : nat → S → S) s :
  for_loop (Datatypes.S n) body s = body n (for_loop n body s).
Proof.
  unfold for_loop. rewrite seq_S, fold_left_app. reflexivity.
Qed.

(** A property kept by every iteration holds after the loop. *)
Lemma for_loop_ind {S} (P : nat → S → Prop) n (body : nat → S → S) s :
  P 0 s →
  (∀ i t, i < n → P i t → P (Datatypes.S i) (body i t)) →
  P n (for_loop n body s).
Proof.
  intros H0 Hstep. induction n as [|n IH].
  - exact H0.
  - rewrite for_loop_S. apply Hstep; [lia|]. apply IH.
    intros i t Hi. apply Hstep. lia.
Qed.

(** ** Proofs: convolution *)

Module ConvolutionFacts.

Import JS Convolution.

Lemma add_zero_r (a : num) : add a (Some 0%Z) = a.
Proof. destruct a as [x|]; simpl; [f_equal; lia | reflexivity]. Qed.

(** A tap outside the image leaves the three sums as they are. *)
Lemma tap_outside sw sh kernel s sy sx cy cx acc :
  in_bounds sw sh
    (Z.of_nat sy + Z.of_nat cy - Z.of_nat (halfSide kernel))
    (Z.of_nat sx + Z.of_nat cx - Z.of_nat (halfSide kernel)) = false →
  tap sw sh kernel s sy sx cy cx acc = acc.
Proof. intros H. unfold tap. rewrite H. reflexivity. Qed.

(** One tap adds its contribution to each of the three sums. *)
Lemma tap_contribution sw sh kernel s sy sx cy cx r g b :
  tap sw sh kernel s sy sx cy cx (r, g, b) =
  (add r (contribution sw sh kernel s sy sx 0 cy cx),
   add g (contribution sw sh kernel s sy sx 1 cy cx),
   add b (contribution sw sh kernel s sy sx 2 cy cx)).
Proof.
  unfold tap, contribution.
  destruct (in_bounds _ _ _ _).
  - rewrite Nat.add_0_r. reflexivity.
  - rewrite !add_zero_r. reflexivity.
Qed.

Lemma kernel_row sw sh kernel s sy sx cy k r g b :
  for_loop k (λ cx acc, tap sw sh kernel s sy sx cy cx acc) (r, g, b) =
  (for_loop k (λ cx acc,
     add acc (contribution sw sh kernel s sy sx 0 cy cx)) r,
   for_loop k (λ cx acc,
     add acc (contribution sw sh kernel s sy sx 1 cy cx)) g,
   for_loop k (λ cx acc,
     add acc (contribution sw sh kernel s sy sx 2 cy cx)) b).
Proof.
  induction k as [|k IHk]; [reflexivity|].
  rewrite !for_loop_S, IHk. apply tap_contribution.
Qed.

Lemma kernel_loops sw sh kernel s sy sx n k :
  for_loop n (λ cy acc,
    for_loop k (λ cx acc, tap sw sh kernel s sy sx cy cx acc) acc)
    (Some 0%Z, Some 0%Z, Some 0%Z) =
  (for_loop n (λ cy acc, for_loop k (λ cx acc,
     add acc (contribution sw sh kernel s sy sx 0 cy cx)) acc) (Some 0%Z),
   for_loop n (λ cy acc, for_loop k (λ cx acc,
     add acc (contribution sw sh kernel s sy sx 1 cy cx)) acc) (Some 0%Z),
   for_loop n (λ cy acc, for_loop k (λ cx acc,
     add acc (contribution sw sh kernel s sy sx 2 cy cx)) acc) (Some 0%Z)).
Proof.
  induction n as [|n IH]; [reflexivity|].
  rewrite !for_loop_S, IH. apply kernel_row.
Qed.

Lemma accumulate_weighted_sum sw sh kernel s sy sx :
  accumulate sw sh kernel s sy sx =
  (weighted_sum sw sh kernel s sy sx 0,
   weighted_sum sw sh kernel s sy sx 1,
   weighted_sum sw sh kernel s sy sx 2).
Proof. apply kernel_loops. Qed.

(** *** The loops over the pixels *)

Lemma same_pixel sw y x y' x' :
  x < sw → x' < sw → y' * sw + x' = y * sw + x → y' = y ∧ x' = x.
Proof.
  intros Hx Hx' He.
  destruct (Nat.lt_trichotomy y y') as [H|[H|H]].
  - assert (S y * sw ≤ y' * sw) by (apply Nat.mul_le_mono_r; lia). lia.
  - subst y'. lia.
  - assert (S y' * sw ≤ y * sw) by (apply Nat.mul_le_mono_r; lia). lia.
Qed.

Lemma pixel_written sw sh kernel a0 a y x :
  length (dst a0) = sw * sh * 4 →
  x < sw → y < sh →
  written sw sh kernel a0 a (y * sw + x) →
  written sw sh kernel a0 (pixel sw sh kernel y x a) (S (y * sw + x)).
Proof.
  intros Hlen Hx Hy (Hsrc & Hl & Hpix).
  assert (Hoff : (y * sw + x) * 4 + 3 < length (dst a)) by (rewrite Hl, Hlen; nia).
  unfold pixel. rewrite accumulate_weighted_sum.
  unfold written. cbn [src dst].
  split; [exact Hsrc|]. split; [by rewrite !length_insert|].
  intros y' x' c Hx' Hk Hc.
  destruct (decide (y' * sw + x' = y * sw + x)) as [He|Hne].
  - destruct (same_pixel sw y x y' x' Hx Hx' He) as [-> ->].
    unfold stored. rewrite Hsrc.
    destruct c as [|[|[|[|c]]]]; [| | | |lia]; cbn [Nat.ltb Nat.leb].
    + rewrite Nat.add_0_r.
      rewrite !list_lookup_insert_ne by lia.
      apply list_lookup_insert_eq. lia.
    + rewrite !list_lookup_insert_ne by lia.
      apply list_lookup_insert_eq. rewrite length_insert. lia.
    + rewrite !list_lookup_insert_ne by lia.
      apply list_lookup_insert_eq. rewrite !length_insert. lia.
    + apply list_lookup_insert_eq. rewrite !length_insert. lia.
  - rewrite !list_lookup_insert_ne by lia.
    apply Hpix; [done|lia|done].
Qed.

Lemma row_written sw sh kernel a0 a y :
  length (dst a0) = sw * sh * 4 →
  y < sh →
  written sw sh kernel a0 a (y * sw) →
  written sw sh kernel a0
    (for_loop sw (λ x a, pixel sw sh kernel y x a) a) (S y * sw).
Proof.
  intros Hlen Hy Hw.
  replace (S y * sw) with (y * sw + sw) by lia.
  apply (for_loop_ind (λ x a, written sw sh kernel a0 a (y * sw + x))).
  - by rewrite Nat.add_0_r.
  - intros x t Hx Ht. rewrite Nat.add_succ_r. by apply pixel_written.
Qed.

Lemma rows_written sw sh kernel a0 :
  length (dst a0) = sw * sh * 4 →
  written sw sh kernel a0 (rows sw sh kernel a0) (sh * sw).
Proof.
  intros Hlen. unfold rows.
  apply (for_loop_ind (λ y a, written sw sh kernel a0 a (y * sw))).
  - repeat split. intros y x c ? ?. lia.
  - intros y t Hy Ht. by apply row_written.
Qed.

(** The loops never write to the source array. *)
Lemma rows_src sw sh kernel a0 :
  src (rows sw sh kernel a0) = src a0.
Proof.
  unfold rows.
  apply (for_loop_ind (λ _ a, src a = src a0)); [done|].
  intros y t _ Ht.
  apply (for_loop_ind (λ _ a, src a = src a0)); [done|].
  intros x u _ Hu. unfold pixel.
  destruct (accumulate _ _ _ _ _ _) as [[r g] b]. exact Hu.
Qed.

Lemma rows_length sw sh kernel a0 :
  length (dst (rows sw sh kernel a0)) = length (dst a0).
Proof.
  unfold rows.
  apply (for_loop_ind (λ _ a, length (dst a) = length (dst a0))); [done|].
  intros y t _ Ht.
  apply (for_loop_ind (λ _ a, length (dst a) = length (dst a0))); [done|].
  intros x u _ Hu. unfold pixel.
  destruct (accumulate _ _ _ _ _ _) as [[r g] b]. cbn [dst].
  by rewrite !length_insert.
Qed.

(** Every channel of every pixel of the output. *)
Lemma convolve_stored img kernel y x c :
  x < width img → y < height img → c < 4 →
  data (convolve img kernel).1 !! ((y * width img + x) * 4 + c) =
  Some (stored (width img) (height img) kernel (data img) y x c).
Proof.
  intros Hx Hy Hc. unfold convolve. cbn [fst data].
  set (a0 := {| src := data img; dst := _ |}).
  destruct (rows_written (width img) (height img) kernel a0) as (_ & _ & H).
  { subst a0. cbn. by rewrite length_replicate. }
  apply H; [done|nia|done].
Qed.

(** *** The identity kernel *)

Lemma round_sqrt_square n : round_sqrt (n * n) = n.
Proof.
  unfold round_sqrt. rewrite Nat.sqrt_square, Nat.sub_diag.
  reflexivity.
Qed.

Lemma identity_side m : side (identityKernel m) = 2 * m + 1.
Proof.
  unfold side, identityKernel.
  rewrite length_insert, length_replicate. apply round_sqrt_square.
Qed.

Lemma identity_halfSide m : halfSide (identityKernel m) = m.
Proof.
  unfold halfSide. rewrite identity_side.
  symmetry. apply (Nat.div_unique _ 2 m 1); lia.
Qed.

Lemma identity_lookup m cy cx :
  cy < 2 * m + 1 → cx < 2 * m + 1 →
  identityKernel m !! (cy * (2 * m + 1) + cx) =
  Some (if decide (cy = m ∧ cx = m) then 1%Z else 0%Z).
Proof.
  intros Hcy Hcx. unfold identityKernel.
  assert (Hcen : m * (2 * m + 1) + m < (2 * m + 1) * (2 * m + 1)) by nia.
  case_decide as Hd.
  - destruct Hd as [-> ->].
    apply list_lookup_insert_eq. by rewrite length_replicate.
  - rewrite list_lookup_insert_ne.
    + apply lookup_replicate_2.
      assert (S cy * (2 * m + 1) ≤ (2 * m + 1) * (2 * m + 1))
        by (apply Nat.mul_le_mono_r; lia).
      lia.
    + intros He. apply Hd.
      apply (same_pixel (2 * m + 1) m m cy cx); [lia|lia|congruence].
Qed.

(** A sum whose only term other than zero is the one of the centre. *)
Lemma sum_centre n m (f : nat → nat → num) (v : num) :
  m < n →
  f m m = v →
  (∀ cy cx, cy < n → cx < n → ¬ (cy = m ∧ cx = m) → f cy cx = Some 0%Z) →
  for_loop n (λ cy acc, for_loop n (λ cx acc, add acc (f cy cx)) acc)
    (Some 0%Z) = add (Some 0%Z) v.
Proof.
  intros Hm Hv Hz.
  assert (Hrow : ∀ cy acc, cy < n → cy ≠ m →
    for_loop n (λ cx acc, add acc (f cy cx)) acc = acc).
  { intros cy acc Hcy Hne.
    apply (for_loop_ind (λ _ a, a = acc)); [done|].
    intros cx t Hcx ->. rewrite Hz by (done || lia). apply add_zero_r. }
  assert (Hmid : for_loop n (λ cx acc, add acc (f m cx)) (Some 0%Z) =
                 add (Some 0%Z) v).
  { apply (for_loop_ind (λ cx a,
      (m < cx → a = add (Some 0%Z) v) ∧ (cx ≤ m → a = Some 0%Z))); [|..|done].
    - split; [lia|done].
    - intros cx t Hcx [Hgt Hle]. split; intros Hc.
      + destruct (decide (cx = m)) as [->|Hne].
        * rewrite Hle by lia. by rewrite Hv.
        * rewrite Hz by (done || lia). rewrite add_zero_r. apply Hgt. lia.
      + rewrite Hz by (done || lia). rewrite add_zero_r. apply Hle. lia. }
  apply (for_loop_ind (λ cy a,
    (m < cy → a = add (Some 0%Z) v) ∧ (cy ≤ m → a = Some 0%Z))); [|..|done].
  - split; [lia|done].
  - intros cy t Hcy [Hgt Hle]. split; intros Hc.
    + destruct (decide (cy = m)) as [->|Hne].
      * rewrite Hle by lia. exact Hmid.
      * rewrite Hrow by done. apply Hgt. lia.
    + rewrite Hrow by (done || lia). apply Hle. lia.
Qed.

Lemma in_bounds_true sw sh scy scx :
  in_bounds sw sh scy scx = true →
  (0 ≤ scy < Z.of_nat sh)%Z ∧ (0 ≤ scx < Z.of_nat sw)%Z.
Proof.
  unfold in_bounds. rewrite !andb_true_iff, !bool_decide_eq_true. lia.
Qed.

Lemma srcOff_inside sw sh scy scx c (s : list Z) :
  length s = sw * sh * 4 →
  in_bounds sw sh scy scx = true → c < 4 →
  srcOff sw scy scx + c < length s.
Proof.
  intros Hlen Hin Hc. apply in_bounds_true in Hin as [Hy Hx].
  unfold srcOff. rewrite Hlen.
  assert (Z.of_nat (Z.to_nat ((scy * Z.of_nat sw + scx) * 4) + c) <
          Z.of_nat (sw * sh * 4))%Z; [|lia].
  rewrite Nat2Z.inj_add, Z2Nat.id by nia.
  rewrite !Nat2Z.inj_mul. nia.
Qed.

Lemma srcOff_centre sw y x m :
  srcOff sw (Z.of_nat y + Z.of_nat m - Z.of_nat m)
            (Z.of_nat x + Z.of_nat m - Z.of_nat m) = (y * sw + x) * 4.
Proof.
  unfold srcOff.
  replace (Z.of_nat y + Z.of_nat m - Z.of_nat m)%Z with (Z.of_nat y) by lia.
  replace (Z.of_nat x + Z.of_nat m - Z.of_nat m)%Z with (Z.of_nat x) by lia.
  rewrite <- Nat2Z.inj_mul, <- Nat2Z.inj_add.
  change 4%Z with (Z.of_nat 4). rewrite <- Nat2Z.inj_mul.
  apply Nat2Z.id.
Qed.

(** With the identity kernel the weighted sum is the channel itself. *)
Lemma identity_weighted_sum sw sh m (s : list Z) y x c :
  length s = sw * sh * 4 →
  x < sw → y < sh → c < 4 →
  weighted_sum sw sh (identityKernel m) s y x c =
  s !! ((y * sw + x) * 4 + c).
Proof.
  intros Hlen Hx Hy Hc. unfold weighted_sum.
  rewrite identity_side.
  rewrite (sum_centre (2 * m + 1) m _ (s !! ((y * sw + x) * 4 + c)));
    [|lia|..].
  - destruct (s !! _); simpl; [f_equal|]; done.
  - unfold contribution. rewrite identity_halfSide, identity_side.
    rewrite srcOff_centre.
    replace (in_bounds _ _ _ _) with true.
    + rewrite identity_lookup by lia. rewrite decide_True by done.
      destruct (s !! _) as [v|]; simpl; [f_equal; lia|done].
    + symmetry. unfold in_bounds.
      rewrite !andb_true_iff, !bool_decide_eq_true. lia.
  - intros cy cx Hcy Hcx Hne. unfold contribution.
    rewrite identity_halfSide, identity_side.
    destruct (in_bounds _ _ _ _) eqn:Hin; [|done].
    rewrite identity_lookup by lia. rewrite decide_False by done.
    destruct (lookup_lt_is_Some_2 s
      (srcOff sw (Z.of_nat y + Z.of_nat cy - Z.of_nat m)
                 (Z.of_nat x + Z.of_nat cx - Z.of_nat m) + c)) as [v Hv].
    { by apply (srcOff_inside sw sh). }
    rewrite Hv. simpl. f_equal. lia.
Qed.

Lemma clamp_channel (s : list Z) i :
  Forall (λ v, 0 ≤ v ≤ 255)%Z s → i < length s →
  Some (toUint8Clamp (s !! i)) = s !! i.
Proof.
  intros Hall Hi.
  destruct (lookup_lt_is_Some_2 s i Hi) as [v Hv]. rewrite Hv.
  assert (0 ≤ v ≤ 255)%Z.
  { rewrite Forall_forall in Hall. apply Hall.
    by apply (list_elem_of_lookup_2 _ i). }
  simpl. f_equal. lia.
Qed.

(** An index into the data is a channel of a pixel at some position. *)
Lemma index_position sw sh i :
  i < sw * sh * 4 →
  ∃ y x c, y < sh ∧ x < sw ∧ c < 4 ∧ i = (y * sw + x) * 4 + c.
Proof.
  intros Hi.
  assert (sw ≠ 0) by (intros ->; lia).
  exists (i / 4 / sw), ((i / 4) mod sw), (i mod 4).
  assert (i / 4 < sw * sh) by (apply Nat.Div0.div_lt_upper_bound; lia).
  repeat split.
  - apply Nat.Div0.div_lt_upper_bound. lia.
  - by apply Nat.mod_upper_bound.
  - by apply Nat.mod_upper_bound.
  - rewrite (Nat.mul_comm (i / 4 / sw) sw), <- Nat.div_mod_eq.
    rewrite (Nat.mul_comm (i / 4) 4). apply Nat.div_mod_eq.
Qed.

(** *** The convolution as a whole *)

Lemma sample_image_wf : wf_image sample_image.
Proof.
  split; [reflexivity|].
  repeat (apply Forall_cons; split; [lia|]). apply Forall_nil_2.
Qed.

(** C5: convolving with the identity kernel gives back the input, in all
    four channels of every pixel. *)
Theorem convolve_identity img m :
  wf_image img →
  (convolve img (identityKernel m)).1 = img.
Proof.
  intros [Hlen Hrange]. destruct img as [w h d]. cbn in Hlen, Hrange.
  unfold convolve. cbn [fst width height data]. f_equal.
  apply list_eq. intros i.
  destruct (decide (i < w * h * 4)) as [Hi|Hi].
  - destruct (index_position w h i Hi) as (y & x & c & Hy & Hx & Hc & ->).
    pose proof (convolve_stored {| width := w; height := h; data := d |}
      (identityKernel m) y x c Hx Hy Hc) as Hs.
    unfold convolve in Hs. cbn [fst width height data] in Hs. rewrite Hs.
    unfold stored. destruct (c <? 3) eqn:Hc3.
    + rewrite (identity_weighted_sum w h) by done.
      apply clamp_channel; [done|lia].
    + apply Nat.ltb_ge in Hc3. replace c with 3 by lia.
      apply clamp_channel; [done|lia].
  - rewrite !lookup_ge_None_2; [done|lia|].
    rewrite rows_length. cbn. rewrite length_replicate. lia.
Qed.

Lemma convolve_identity_witness :
  wf_image sample_image ∧
  (convolve sample_image (identityKernel 1)).1 = sample_image.
Proof.
  split; [exact sample_image_wf|].
  apply (convolve_identity sample_image 1), sample_image_wf.
Defined.

(** *** Stores into the output: clamped, not wrapped *)

(** C9, as stated, fails: a red channel of 200 under the one-tap kernel of
    weight 2 sums to 400, which is stored as 255 and not as
    400 mod 256 = 144. *)
Lemma store_wraps_counterexample :
  let img := {| width := 1; height := 1; data := [200; 100; 50; 255]%Z |} in
  weighted_sum 1 1 [2%Z] (data img) 0 0 0 = Some 400%Z ∧
  data (convolve img [2%Z]).1 !! 0 = Some 255%Z ∧
  data (convolve img [2%Z]).1 !! 0 ≠ Some (toUint8Wrap (Some 400%Z)).
Proof. cbn zeta. split_and!; [reflexivity|reflexivity|]. vm_compute. discriminate. Qed.

(** C9, amended: every colour channel of the output is the weighted sum
    clamped to the range from 0 to 255: a sum above 255 is stored as 255,
    a sum below 0 as 0, and a sum in the range as it is. *)
Theorem store_clamps img kernel y x c :
  x < width img → y < height img → c < 3 →
  ∃ v,
    data (convolve img kernel).1 !! ((y * width img + x) * 4 + c) = Some v ∧
    v = toUint8Clamp
          (weighted_sum (width img) (height img) kernel (data img) y x c) ∧
    (0 ≤ v ≤ 255)%Z ∧
    ∀ z, weighted_sum (width img) (height img) kernel (data img) y x c
           = Some z →
         ((255 < z)%Z → v = 255%Z) ∧
         ((z < 0)%Z → v = 0%Z) ∧
         ((0 ≤ z ≤ 255)%Z → v = z).
Proof.
  intros Hx Hy Hc. eexists. split.
  - rewrite convolve_stored by (done || lia).
    unfold stored. rewrite (proj2 (Nat.ltb_lt c 3) Hc). reflexivity.
  - split; [reflexivity|].
    destruct (weighted_sum _ _ _ _ _ _ _) as [z|]; simpl.
    + split; [lia|]. intros z' [= <-]. lia.
    + split; [lia|]. intros z' [=].
Qed.

Lemma store_clamps_witness :
  ∃ v,
    data (convolve sample_image [3%Z]).1 !! 0 = Some v ∧ v = 255%Z.
Proof.
  destruct (store_clamps sample_image [3%Z] 0 0 0) as (v & Hv & -> & _);
    [cbn; lia | cbn; lia | lia |].
  exists 255%Z. split; [exact Hv | reflexivity].
Defined.

(** *** No validation of the kernel *)

(** C6, as stated, fails: a kernel of side 2 and the empty kernel (side 0)
    are both taken without complaint, and a result is written to the
    canvas. *)
Lemma even_kernel_counterexample :
  side [1; 1; 1; 1]%Z = 2 ∧
  applyConvolution one_pixel 1 1 [1; 1; 1; 1]%Z =
    Return {| bwidth := 1; bheight := 1; pixels := [200; 100; 50; 255]%Z |} ∧
  side [] = 0 ∧
  applyConvolution one_pixel 1 1 [] =
    Return {| bwidth := 1; bheight := 1; pixels := [0; 0; 0; 255]%Z |}.
Proof. split_and!; reflexivity. Qed.

(** C6, amended: the convolution checks neither the kernel nor the buffer.
    For every kernel, whatever its side, it completes on a rectangle of
    width and height other than zero and writes the result to the canvas;
    on a rectangle of no width or no height the canvas call
    [getImageData] throws [IndexSizeError] before any pixel is looked at. *)
Theorem applyConvolution_unchecked cv w h kernel :
  applyConvolution cv w h kernel =
  if (w =? 0) || (h =? 0) then Throw (DOMException "IndexSizeError")
  else Return (putImageData cv (convolve (readRect cv w h) kernel).1).
Proof.
  unfold applyConvolution, getImageData, createImageData.
  destruct ((w =? 0) || (h =? 0)); reflexivity.
Qed.

End ConvolutionFacts.

(** ** Proofs: compositing *)

Module Canvas2DFacts.

Import Canvas2D.
Local Open Scope Qc_scope.

Section WithPlatform.

Context `{Platform}.

Lemma pixel_eq (p q : Pixel) :
  red p = red q → green p = green q → blue p = blue q →
  alpha p = alpha q → p = q.
Proof. destruct p, q. simpl. by intros -> -> -> ->. Qed.

(** Drawing an opaque source at full opacity with [source-over] replaces
    the backdrop, whatever it holds. *)
Lemma source_over_opaque (s d : Pixel) :
  alpha s = 1 → composite SourceOver 1 s d = s.
Proof.
  intros Ha. apply pixel_eq; unfold composite; simpl; rewrite ?Ha; ring.
Qed.

(** Drawing on a transparent backdrop at full opacity with
    [source-over] copies the source. *)
Lemma source_over_transparent (s : Pixel) :
  composite SourceOver 1 s transparent = s.
Proof. apply pixel_eq; unfold composite; simpl; ring. Qed.

Lemma applyFilter_alpha f p : alpha (applyFilter f p) = alpha p.
Proof. by destruct f. Qed.

Lemma applyFilters_alpha fs p : alpha (applyFilters fs p) = alpha p.
Proof.
  revert p. induction fs as [|f fs IH]; intros p; [done|].
  simpl. by rewrite IH, applyFilter_alpha.
Qed.

Lemma applyFilters_nil p : applyFilters [] p = p.
Proof. reflexivity. Qed.

Lemma drawImage_lookup source c k :
  bitmap (drawImage source c) !! k =
  paint (state c) (source k) <$> bitmap c !! k.
Proof.
  unfold drawImage, withBitmap. cbn [bitmap].
  apply (list_lookup_imap (λ k d, paint (state c) (source k) d)).
Qed.

Lemma fillRect_lookup c k :
  bitmap (fillRect c) !! k =
  paint (state c) (premultiply (fillStyle (state c))) <$> bitmap c !! k.
Proof. unfold fillRect. cbn. apply list_lookup_fmap. Qed.

Lemma clearRect_lookup c k :
  bitmap (clearRect c) !! k = (λ _, transparent) <$> bitmap c !! k.
Proof. unfold clearRect. cbn. apply list_lookup_fmap. Qed.

(** The copy of the canvas kept in [tempCanvas], line 82. *)
Lemma tempCanvas_copy canvas k p :
  length (bitmap canvas) = (width canvas * height canvas)%nat →
  bitmap canvas !! k = Some p →
  pixelsOf (drawImage (pixelsOf canvas)
              (setHeight (height canvas)
                 (setWidth (width canvas) createCanvas))) k = p.
Proof.
  intros Hlen Hk. unfold pixelsOf at 1.
  rewrite drawImage_lookup. cbn.
  rewrite lookup_replicate_2
    by (rewrite <- Hlen; by apply (lookup_lt_Some _ _ p)).
  cbn. unfold pixelsOf. rewrite Hk. cbn.
  apply source_over_transparent.
Qed.

(** What [processSonyLook] leaves on an opaque canvas: the filter of line
    106 applied to the pixels the canvas held on entry.  The two tints
    are painted over. *)
Lemma processSonyLook_opaque canvas :
  has2d canvas = true →
  globalAlpha (state canvas) = 1 →
  length (bitmap canvas) = (width canvas * height canvas)%nat →
  Forall (λ p, alpha p = 1) (bitmap canvas) →
  bitmap (processSonyLook canvas) =
  applyFilters lookFilter <$> bitmap canvas.
Proof.
  intros Hctx Hg Hlen Hop.
  unfold processSonyLook. rewrite Hctx. cbn [negb has2d setHeight setWidth createCanvas].
  apply list_eq. intros k.
  rewrite list_lookup_fmap.
  cbn [setFilter withState bitmap].
  rewrite drawImage_lookup.
  cbn [setFilter setGlobalCompositeOperation setFillStyle withState
       bitmap state].
  rewrite !fillRect_lookup.
  cbn [setFilter setGlobalCompositeOperation setFillStyle withState
       bitmap state].
  rewrite fillRect_lookup.
  cbn [setFilter setGlobalCompositeOperation setFillStyle withState
       bitmap state].
  rewrite drawImage_lookup, clearRect_lookup.
  destruct (bitmap canvas !! k) as [p|] eqn:Hk; [|done].
  cbn [fmap option_fmap option_map].
  f_equal.
  match goal with |- paint ?st (pixelsOf ?t k) ?d = _ =>
    change (pixelsOf t k) with
      (pixelsOf (drawImage (pixelsOf canvas)
                  (setHeight (height canvas)
                     (setWidth (width canvas) createCanvas))) k)
  end.
  rewrite (tempCanvas_copy canvas k p Hlen Hk).
  unfold paint at 1.
  cbn [globalCompositeOperation globalAlpha filter state clearRect
       drawImage fillRect withBitmap].
  match goal with |- composite SourceOver ?g _ _ = _ =>
    change g with (globalAlpha (state canvas))
  end.
  rewrite Hg. apply source_over_opaque.
  rewrite applyFilters_alpha.
  rewrite Forall_forall in Hop. apply Hop.
  by apply (list_elem_of_lookup_2 _ k).
Qed.

(** *** Stacking *)

Lemma over_source_over g s d : composite SourceOver g s d = over g s d.
Proof. reflexivity. Qed.


Lemma stacked_state videoElement canvas :
  state (stacked videoElement canvas) = defaultState.
Proof. reflexivity. Qed.

(** *** The running composite is the mean *)

Lemma Qc_of_nat_S n : Qc_of_nat (S n) = Qc_of_nat n + 1.
Proof.
  unfold Qc_of_nat.
  by rewrite Nat2Z.inj_succ, <- Z.add_1_r, Z2Qc_inj_add, Z2Qc_inj_1.
Qed.

Lemma Qc_of_nat_nonzero n : n ≠ 0%nat → Qc_of_nat n ≠ 0.
Proof.
  intros Hn He. unfold Qc_of_nat in He.
  rewrite <- Z2Qc_inj_0 in He. apply Z2Qc_inj in He. lia.
Qed.

Lemma sumQc_S n f : sumQc (S n) f = sumQc n f + f n.
Proof. unfold sumQc. by rewrite for_loop_S. Qed.

(** The first sample, drawn at opacity [1/1] on the cleared canvas. *)
Lemma mean_first (f : nat → Qc) (a : Qc) :
  1 / Qc_of_nat (0 + 1) * f 0%nat + (1 - 1 / Qc_of_nat (0 + 1) * a) * 0 =
  arithmeticMean 1 f.
Proof.
  unfold arithmeticMean. rewrite sumQc_S. cbn [Nat.add].
  replace (Qc_of_nat 1) with 1 by (symmetry; apply Z2Qc_inj_1).
  unfold sumQc. rewrite for_loop_0. field. discriminate.
Qed.

(** A later sample, drawn at opacity [1/(i+1)] over the mean of the [i]
    samples before it. *)
Lemma mean_next (i : nat) (f : nat → Qc) :
  i ≠ 0%nat →
  1 / Qc_of_nat (i + 1) * f i
  + (1 - 1 / Qc_of_nat (i + 1) * 1) * arithmeticMean i f =
  arithmeticMean (S i) f.
Proof.
  intros Hi. unfold arithmeticMean.
  rewrite sumQc_S, Nat.add_1_r, Qc_of_nat_S.
  pose proof (Qc_of_nat_nonzero i Hi) as Hq.
  pose proof (Qc_of_nat_nonzero (S i) (Nat.neq_succ_0 i)) as Hq'.
  rewrite Qc_of_nat_S in Hq'.
  field. by split.
Qed.

Lemma stackFrames_meanSoFar n videoElement c0 :
  globalCompositeOperation (state c0) = SourceOver →
  filter (state c0) = [] →
  Forall (λ p, p = transparent) (bitmap c0) →
  (∀ i k, alpha (frame videoElement i k) = 1) →
  let c := stackFrames n videoElement c0 in
  globalCompositeOperation (state c) = SourceOver ∧
  filter (state c) = [] ∧
  ∀ k, (k < length (bitmap c0))%nat →
    bitmap c !! k = Some (meanSoFar videoElement n k).
Proof.
  intros Hop Hf Hclear Hopaque. cbn zeta. unfold stackFrames.
  apply (for_loop_ind (λ i c,
    globalCompositeOperation (state c) = SourceOver ∧
    filter (state c) = [] ∧
    ∀ k, (k < length (bitmap c0))%nat →
      bitmap c !! k = Some (meanSoFar videoElement i k))).
  - split_and!; [done..|]. intros k Hk.
    destruct (lookup_lt_is_Some_2 _ _ Hk) as [p Hp]. rewrite Hp.
    rewrite Forall_forall in Hclear. f_equal. apply Hclear.
    by apply (list_elem_of_lookup_2 _ k).
  - intros i c Hi (Hop' & Hf' & Hpix). split_and!; [done..|].
    intros k Hk. rewrite drawImage_lookup.
    cbn [setGlobalAlpha withState bitmap]. rewrite (Hpix k Hk).
    cbn [fmap option_fmap option_map]. f_equal.
    unfold paint.
    cbn [setGlobalAlpha withState state globalAlpha
         globalCompositeOperation filter].
    rewrite Hop', Hf', applyFilters_nil.
    apply pixel_eq; unfold composite, compositeChannel;
      cbn [red green blue alpha]; rewrite !Hopaque.
    all: destruct i as [|i]; cbn [meanSoFar transparent meanPixel
                                  red green blue alpha].
    + apply (mean_first (λ j, red (frame videoElement j k)) 1).
    + apply (mean_next (S i) (λ j, red (frame videoElement j k))). done.
    + apply (mean_first (λ j, green (frame videoElement j k)) 1).
    + apply (mean_next (S i) (λ j, green (frame videoElement j k))). done.
    + apply (mean_first (λ j, blue (frame videoElement j k)) 1).
    + apply (mean_next (S i) (λ j, blue (frame videoElement j k))). done.
    + etrans;
        [|apply (mean_first (λ j, alpha (frame videoElement j k)) 1)].
      cbn beta. by rewrite Hopaque.
    + etrans;
        [|by apply (mean_next (S i)
                      (λ j, alpha (frame videoElement j k)))].
      cbn beta. by rewrite Hopaque.
Qed.

(** *** The claims on the stacking and the look *)


(** The composite of frames of one colour each, before the look. *)
Lemma solid_stack_mean n w h colours canvas k :
  (1 ≤ n)%nat → (k < w * h)%nat →
  bitmap (stackFrames n (solidVideo w h colours)
            (clearRect (setHeight h (setWidth w canvas)))) !! k =
  Some (meanPixel n (λ i, frame (solidVideo w h colours) i k)).
Proof.
  intros Hn Hk.
  destruct (stackFrames_meanSoFar n (solidVideo w h colours)
              (clearRect (setHeight h (setWidth w canvas))))
    as (_ & _ & Hpix).
  - reflexivity.
  - reflexivity.
  - cbn. rewrite fmap_replicate. by apply Forall_replicate.
  - intros i j. cbn. by destruct (colours i) as [[r g] b].
  - rewrite Hpix.
    + by destruct n; [lia|].
    + cbn. by rewrite length_fmap, length_replicate.
Qed.

(** C2, amended: for every number [n >= 1] of frames of one colour each,
    the composite of the recursive [1/i] rule is, channel by channel and
    in exact arithmetic, the arithmetic mean of the [n] frames; so it is
    for the four frames of [performStacking]. *)
Theorem stacking_is_arithmetic_mean n w h colours canvas k :
  (1 ≤ n)%nat → (k < w * h)%nat →
  bitmap (stackFrames n (solidVideo w h colours)
            (clearRect (setHeight h (setWidth w canvas)))) !! k =
  Some (meanPixel n (λ i, frame (solidVideo w h colours) i k)) ∧
  bitmap (stacked (solidVideo w h colours) canvas) !! k =
  Some (meanPixel frameCount (λ i, frame (solidVideo w h colours) i k)).
Proof.
  intros Hn Hk. split.
  - by apply solid_stack_mean.
  - apply (solid_stack_mean frameCount w h colours canvas k);
      [unfold frameCount; lia | done].
Qed.

(** C3: on the canvas of one dark gray pixel, [processSonyLook] leaves
    the contrast and saturation filter applied to the pixel the canvas
    held on entry; the three stages applied one after the other give
    another pixel. *)
Theorem processSonyLook_filters_original :
  bitmap (processSonyLook darkGrayCanvas) =
    [mkPixel (ratio 31 200) (ratio 31 200) (ratio 31 200) 1] ∧
  bitmap (processSonyLook darkGrayCanvas) =
    applyFilters lookFilter <$> bitmap darkGrayCanvas ∧
  stagedLook (bitmap darkGrayCanvas) ≠
    bitmap (processSonyLook darkGrayCanvas).
Proof.
  assert (Hcode : bitmap (processSonyLook darkGrayCanvas) =
                  applyFilters lookFilter <$> bitmap darkGrayCanvas).
  { apply processSonyLook_opaque; [done..|].
    apply Forall_cons. split; [done|]. apply Forall_nil_2. }
  assert (Hval : applyFilters lookFilter <$> bitmap darkGrayCanvas =
                 [mkPixel (ratio 31 200) (ratio 31 200) (ratio 31 200) 1]).
  { cbn [fmap list_fmap bitmap darkGrayCanvas].
    apply (f_equal (λ p, [p])).
    apply pixel_eq; apply Qc_is_canon; vm_compute; reflexivity. }
  split_and!; [by rewrite Hcode|done|].
  rewrite Hcode, Hval. intros He.
  apply (f_equal (λ l, this (red (default transparent (head l))))) in He.
  vm_compute in He. discriminate.
Qed.

End WithPlatform.


Lemma stacking_is_arithmetic_mean_witness :
  (1 ≤ 4)%nat ∧ (0 < 2 * 1)%nat ∧
  bitmap (@stacked examplePlatform
            (solidVideo 2 1 fourColours) darkGrayCanvas)
    !! 0%nat =
  Some (meanPixel 4
          (λ i, frame (solidVideo 2 1 fourColours) i 0%nat)).
Proof.
  split; [lia|]. split; [lia|].
  apply (@stacking_is_arithmetic_mean examplePlatform 4 2 1 fourColours
           darkGrayCanvas 0%nat); lia.
Defined.

(** C2, as stated, fails: there is no sequence of frames of one colour
    each on which the composite of the recursive rule differs from the
    arithmetic mean. *)
Lemma recursive_rule_counterexample :
  ¬ ∃ (P : Platform) (n w h : nat) (colours : nat → Qc * Qc * Qc)
      (canvas : Canvas) (k : nat),
      (1 ≤ n)%nat ∧ (k < w * h)%nat ∧
      bitmap (stackFrames n (solidVideo w h colours)
                (clearRect (setHeight h (setWidth w canvas)))) !! k ≠
      Some (meanPixel n (λ i, frame (solidVideo w h colours) i k)).
Proof.
  intros (P & n & w & h & colours & canvas & k & Hn & Hk & Hne).
  apply Hne. by apply solid_stack_mean.
Qed.

End Canvas2DFacts.

(** ** Proofs: the scene analysis and the handlers *)

Module AppFacts.

Import Canvas2D Gemini App.

(** C8: whatever the key, the collaborator and the image, the analysis
    returns a string and throws nothing: the notice of the missing key
    without a key, the notice of failure when either call of the
    collaborator throws, the text of the response (or the notice of an
    empty response) otherwise.  The handler that runs it leaves the photos
    and the capture flag as they were, and ends with a text to show. *)
Theorem analysis_returns_sentinel apiKey ai photo s :
  analyzeImageScene apiKey ai (url photo) =
    Return
      (if isEmpty apiKey then keyMissing
       else match getGenerativeModel ai with
            | Throw _ => couldNotAnalyze
            | Return _ =>
                match generateContent ai (splitComma1 (url photo)) with
                | Throw _ => couldNotAnalyze
                | Return text => orElse text analysisFailed
                end
            end) ∧
  photos (handleAiAnalysis apiKey ai photo s) = photos s ∧
  isCapturing (handleAiAnalysis apiKey ai photo s) = isCapturing s ∧
  isAnalyzing (handleAiAnalysis apiKey ai photo s) = false ∧
  is_Some (aiAnalysis (handleAiAnalysis apiKey ai photo s)).
Proof.
  split.
  - unfold analyzeImageScene.
    destruct (isEmpty apiKey); [reflexivity|].
    destruct (getGenerativeModel ai) as [[]|e]; cbn; [|reflexivity].
    destruct (generateContent ai _) as [text|e]; reflexivity.
  - unfold handleAiAnalysis.
    destruct (analyzeImageScene apiKey ai (url photo)); cbn; eauto.
Qed.

Section WithPlatform.

Context `{Platform}.

Lemma settle_idle p clock s :
  isCapturing (handleCapture_settle p clock s).1 = false ∧
  (handleCapture_settle p clock s).2 = Return tt.
Proof. split; reflexivity. Qed.

Lemma settle_refs p clock s :
  is_Some (videoRef s) → is_Some (canvasRef s) →
  is_Some (videoRef (handleCapture_settle p clock s).1) ∧
  is_Some (canvasRef (handleCapture_settle p clock s).1).
Proof.
  intros [v Hv] [c Hc]. unfold handleCapture_settle.
  rewrite Hv, Hc. cbn [fst].
  destruct (takePicture _ _ _) as [[c' dataUrl]|e].
  - destruct (isEmpty dataUrl); cbn; rewrite ?Hv; eauto.
  - cbn. rewrite Hv, Hc. eauto.
Qed.

Lemma call_idle s :
  is_Some (videoRef s) → is_Some (canvasRef s) →
  isCapturing s = false →
  handleCapture_call s =
  (setIsCapturing true s,
   Waiting {| p_mode := mode s; p_settings := settings s |}).
Proof.
  intros [v Hv] [c Hc] Hidle. unfold handleCapture_call.
  by rewrite Hv, Hc, Hidle.
Qed.

Lemma call_busy s :
  isCapturing s = true → handleCapture_call s = (s, Settled (Return tt)).
Proof.
  intros Hbusy. unfold handleCapture_call. rewrite Hbusy.
  by destruct (videoRef s), (canvasRef s).
Qed.

(** C7, amended: while a capture is in flight a further call of the
    handler does nothing: the state stays as it is, nothing is queued and
    the promise resolves with no failure.  Once the capture in flight has
    settled, with a photo or with an error caught, the flag is down, and
    a new call starts a capture. *)
Theorem capture_in_progress_ignored s p clock :
  (isCapturing s = true →
     handleCapture_call s = (s, Settled (Return tt))) ∧
  (let s' := (handleCapture_settle p clock s).1 in
   isCapturing s' = false ∧
   (handleCapture_settle p clock s).2 = Return tt ∧
   (is_Some (videoRef s) → is_Some (canvasRef s) →
      handleCapture_call s' =
      (setIsCapturing true s',
       Waiting {| p_mode := mode s'; p_settings := settings s' |}))).
Proof.
  split; [apply call_busy|]. cbn zeta.
  split_and!; [reflexivity..|].
  intros Hv Hc.
  destruct (settle_refs p clock s Hv Hc) as [Hv' Hc'].
  by apply call_idle.
Qed.

(** *** The photo collection *)

Lemma capture_photos clock s :
  photos (capture clock s) =
  match artifact clock s with
  | Some a => a :: photos s
  | None => photos s
  end.
Proof.
  unfold capture, artifact, handleCapture_call.
  destruct (videoRef s) as [v|] eqn:Hv; [|done].
  destruct (canvasRef s) as [c|] eqn:Hc; [|done].
  destruct (isCapturing s); [done|].
  unfold handleCapture_settle.
  cbn [videoRef canvasRef setIsCapturing]. rewrite Hv, Hc.
  cbn [fst p_mode].
  destruct (takePicture _ _ _) as [[c' dataUrl]|e]; [|done].
  by destruct (isEmpty dataUrl).
Qed.

Lemma captures_photos clocks s :
  photos (captures clocks s) = reverse (artifacts clocks s) ++ photos s.
Proof.
  revert s. induction clocks as [|clock rest IH]; intros s; [done|].
  cbn [captures foldl artifacts]. fold (captures rest (capture clock s)).
  rewrite IH, capture_photos.
  destruct (artifact clock s) as [a|]; [|done].
  by rewrite reverse_cons, <- app_assoc.
Qed.

(** C10: a capture that produces an artifact puts it in front of the
    photos; after any sequence of captures the collection holds the
    artifacts in the reverse of the order in which they were produced,
    in front of the photos there were, and the last photo shown is the
    artifact of the latest capture that produced one. *)
Theorem photos_most_recent_first clocks s :
  photos (captures clocks s) = reverse (artifacts clocks s) ++ photos s ∧
  (∀ clock a, artifact clock s = Some a →
     photos (capture clock s) = a :: photos s ∧
     lastPhotoUrl (capture clock s) = Some (url a)) ∧
  (∀ a, last (artifacts clocks s) = Some a →
     lastPhotoUrl (captures clocks s) = Some (url a)).
Proof.
  split_and!.
  - apply captures_photos.
  - intros clock a Ha. unfold lastPhotoUrl.
    rewrite capture_photos, Ha. done.
  - intros a Ha. unfold lastPhotoUrl. rewrite captures_photos.
    rewrite <- head_reverse in Ha.
    destruct (reverse (artifacts clocks s)) as [|b l]; [done|].
    cbn in Ha. by injection Ha as ->.
Qed.

End WithPlatform.

(** C7, as stated, fails: the call made while a capture is in flight is
    dropped silently; its promise resolves, and no failure of any kind is
    reported. *)
Lemma capture_in_progress_counterexample :
  let busy := setIsCapturing true idle in
  handleCapture_call busy = (busy, Settled (Return tt)) ∧
  ¬ ∃ e s', handleCapture_call busy = (s', Settled (Throw e)).
Proof.
  cbn zeta. split; [reflexivity|].
  intros (e & s' & He). discriminate He.
Qed.

Lemma capture_in_progress_ignored_witness :
  let busy := setIsCapturing true idle in
  let clock := {| idNow := 1700000000000%N; stampNow := 1700000000001%N |} in
  let p := {| p_mode := PRO; p_settings := DEFAULT_SETTINGS |} in
  isCapturing busy = true ∧
  is_Some (videoRef busy) ∧ is_Some (canvasRef busy) ∧
  handleCapture_call busy = (busy, Settled (Return tt)) ∧
  isCapturing (@handleCapture_settle examplePlatform p clock busy).1 = false.
Proof.
  cbn zeta.
  pose proof (@capture_in_progress_ignored examplePlatform
    (setIsCapturing true idle)
    {| p_mode := PRO; p_settings := DEFAULT_SETTINGS |}
    {| idNow := 1700000000000%N; stampNow := 1700000000001%N |}) as [Hbusy Hsettle].
  cbn zeta in Hsettle. destruct Hsettle as (Hflag & _ & _).
  split_and!; [reflexivity | by eexists | by eexists | |].
  - apply Hbusy. reflexivity.
  - exact Hflag.
Defined.

Lemma photos_most_recent_first_witness :
  let first := {| idNow := 1700000000000%N; stampNow := 1700000000001%N |} in
  let second := {| idNow := 1700000000400%N; stampNow := 1700000000400%N |} in
  (∃ a, @artifact examplePlatform second
          (@capture examplePlatform first idle) = Some a) ∧
  timestamp <$> photos (@captures examplePlatform [first; second] idle) =
    [1700000000400%N; 1700000000001%N] ∧
  lastPhotoUrl (@capture examplePlatform second
                  (@capture examplePlatform first idle)) =
    Some "data:image/jpeg;base64,/9j/".
Proof.
  cbn zeta.
  destruct (@photos_most_recent_first examplePlatform
    [{| idNow := 1700000000000%N; stampNow := 1700000000001%N |};
     {| idNow := 1700000000400%N; stampNow := 1700000000400%N |}] idle)
    as (Hall & _ & _).
  destruct (@photos_most_recent_first examplePlatform []
    (@capture examplePlatform
       {| idNow := 1700000000000%N; stampNow := 1700000000001%N |} idle))
    as (_ & Hone & _).
  edestruct (Hone {| idNow := 1700000000400%N; stampNow := 1700000000400%N |})
    as [_ Hurl]; [vm_compute; reflexivity|].
  split_and!.
  - eexists. vm_compute. reflexivity.
  - rewrite Hall. vm_compute. reflexivity.
  - exact Hurl.
Defined.

End AppFacts.


(** ** More on the convolution *)

Module ConvolutionMore.

Import JS Convolution ConvolutionFacts CanvasData Footprint.

Lemma clamp_range (v : num) : (0 ≤ toUint8Clamp v ≤ 255)%Z.
Proof. destruct v as [z|]; simpl; lia. Qed.

Lemma output_wf img kernel : wf_image (convolve img kernel).1.
Proof.
  split.
  - unfold convolve. cbn [fst width height data].
    rewrite rows_length. cbn. apply length_replicate.
  - apply Forall_lookup. intros i v Hi.
    assert (Hlt : i < width img * height img * 4).
    { apply lookup_lt_Some in Hi. revert Hi. unfold convolve.
      cbn [fst data]. rewrite rows_length. cbn.
      by rewrite length_replicate. }
    destruct (index_position _ _ _ Hlt) as (y & x & c & Hy & Hx & Hc & ->).
    rewrite convolve_stored in Hi by done. injection Hi as <-.
    unfold stored. destruct (c <? 3); apply clamp_range.
Qed.

(** The output of the convolution is well-formed image data, whatever the
    image and the kernel: as many channels as the dimensions ask for, each
    between 0 and 255. *)
Theorem convolve_well_formed img kernel :
  wf_image (convolve img kernel).1.
Proof.
  pose proof (output_wf img kernel) as [Hlen Hrange].
  split; [exact Hlen | exact Hrange].
Qed.

(** The alpha channel of a pixel of the output. *)
Lemma alpha_kept img kernel y x :
  wf_image img → x < width img → y < height img →
  data (convolve img kernel).1 !! ((y * width img + x) * 4 + 3) =
  data img !! ((y * width img + x) * 4 + 3).
Proof.
  intros [Hlen Hrange] Hx Hy.
  rewrite convolve_stored by (done || lia).
  unfold stored. cbn [Nat.ltb Nat.leb].
  apply clamp_channel; [done|]. rewrite Hlen. nia.
Qed.

(** A colour channel of a pixel of the output. *)
Lemma colour_stored img kernel y x c :
  x < width img → y < height img → c < 3 →
  data (convolve img kernel).1 !! ((y * width img + x) * 4 + c) =
  Some (toUint8Clamp
          (weighted_sum (width img) (height img) kernel (data img) y x c)).
Proof.
  intros Hx Hy Hc. rewrite convolve_stored by (done || lia).
  unfold stored. by rewrite (proj2 (Nat.ltb_lt c 3) Hc).
Qed.

(** The two ways [applyConvolution] ends. *)
Lemma applyConvolution_cases cv w h kernel :
  applyConvolution cv w h kernel =
  if (w =? 0) || (h =? 0) then Throw (DOMException "IndexSizeError")
  else Return (putImageData cv (convolve (readRect cv w h) kernel).1).
Proof.
  unfold applyConvolution, getImageData, createImageData.
  destruct ((w =? 0) || (h =? 0)); reflexivity.
Qed.

(** The identity kernel gives back the data it is given. *)
Lemma identity_data img m :
  wf_image img → data (convolve img (identityKernel m)).1 = data img.
Proof.
  intros [Hlen Hrange].
  apply list_eq. intros i.
  destruct (decide (i < width img * height img * 4)) as [Hi|Hi].
  - destruct (index_position _ _ i Hi) as (y & x & c & Hy & Hx & Hc & ->).
    rewrite convolve_stored by done.
    unfold stored. destruct (c <? 3) eqn:Hc3.
    + rewrite (identity_weighted_sum (width img) (height img)) by done.
      apply clamp_channel; [done|lia].
    + apply Nat.ltb_ge in Hc3. replace c with 3 by lia.
      apply clamp_channel; [done|lia].
  - destruct (output_wf img (identityKernel m)) as [Hl _].
    rewrite !lookup_ge_None_2; [done|lia|].
    rewrite Hl. cbn. lia.
Qed.

Lemma side_single k : side [k] = 1.
Proof. reflexivity. Qed.

(** A kernel of the single weight [k] scales every colour channel by [k]
    and clamps the product; alpha is kept. *)
Theorem convolve_single_weight img k y x c v :
  wf_image img →
  x < width img → y < height img → c < 3 →
  data img !! ((y * width img + x) * 4 + c) = Some v →
  data (convolve img [k]).1 !! ((y * width img + x) * 4 + c) =
    Some (Z.max 0 (Z.min 255 (v * k))) ∧
  data (convolve img [k]).1 !! ((y * width img + x) * 4 + 3) =
    data img !! ((y * width img + x) * 4 + 3).
Proof.
  intros Hwf Hx Hy Hc Hv. split.
  - rewrite convolve_stored by (done || lia).
    unfold stored. rewrite (proj2 (Nat.ltb_lt c 3) Hc).
    unfold weighted_sum. rewrite side_single.
    rewrite !for_loop_S, !for_loop_0.
    unfold contribution, halfSide. rewrite side_single.
    change (1 / 2) with 0.
    rewrite (srcOff_centre (width img) y x 0).
    replace (in_bounds _ _ _ _) with true.
    + rewrite Hv. cbn. do 2 f_equal.
    + symmetry. unfold in_bounds.
      rewrite !andb_true_iff, !bool_decide_eq_true. lia.
  - by apply alpha_kept.
Qed.

Lemma convolve_single_weight_witness :
  wf_image sample_image ∧
  data (convolve sample_image [(-1)%Z]).1 !! 1 = Some 0%Z ∧
  data (convolve sample_image [2%Z]).1 !! 6 = Some 60%Z.
Proof.
  split; [exact sample_image_wf|]. split.
  - destruct (convolve_single_weight sample_image (-1)%Z 0 0 1 100%Z
                sample_image_wf) as [H _]; try (cbn; lia); [reflexivity|].
    exact H.
  - destruct (convolve_single_weight sample_image 2%Z 0 1 2 30%Z
                sample_image_wf) as [H _]; try (cbn; lia); [reflexivity|].
    exact H.
Defined.

(** With the empty kernel no tap is visited: every colour channel of the
    output is zero and alpha is the one of the source. *)
Theorem convolve_empty_kernel img y x :
  wf_image img →
  x < width img → y < height img →
  let off := (y * width img + x) * 4 in
  data (convolve img []).1 !! off = Some 0%Z ∧
  data (convolve img []).1 !! (off + 1) = Some 0%Z ∧
  data (convolve img []).1 !! (off + 2) = Some 0%Z ∧
  data (convolve img []).1 !! (off + 3) = data img !! (off + 3).
Proof.
  intros Hwf Hx Hy. cbn zeta.
  rewrite <- (Nat.add_0_r ((y * width img + x) * 4)) at 1.
  rewrite !colour_stored by (done || lia).
  split_and!; try reflexivity. by apply alpha_kept.
Qed.

Lemma convolve_empty_kernel_witness :
  wf_image sample_image ∧
  data (convolve sample_image []).1 !! 4 = Some 0%Z ∧
  data (convolve sample_image []).1 !! 7 = Some 128%Z.
Proof.
  split; [exact sample_image_wf|].
  destruct (convolve_empty_kernel sample_image 0 1 sample_image_wf)
    as (Hr & _ & _ & Ha); [cbn; lia..|].
  split; [exact Hr | exact Ha].
Defined.

(** *** The convolution on a canvas *)

(** A list made of [n] chunks of [m] elements each. *)
Lemma bind_chunks {A} (F : nat → list A) m n :
  (∀ x, x < n → length (F x) = m) →
  length (seq 0 n ≫= F) = n * m ∧
  ∀ x c, x < n → c < m → (seq 0 n ≫= F) !! (x * m + c) = F x !! c.
Proof.
  induction n as [|n IH]; intros Hlen.
  - split; [done|]. intros; lia.
  - destruct IH as [IHl IHk]; [intros; apply Hlen; lia|].
    rewrite seq_S, bind_app. cbn [Nat.add]. rewrite bind_singleton.
    split.
    + rewrite length_app, IHl, Hlen by lia. lia.
    + intros x c Hx Hc. destruct (decide (x = n)) as [->|Hne].
      * rewrite lookup_app_r by (rewrite IHl; lia).
        rewrite IHl. f_equal. lia.
      * rewrite lookup_app_l by (rewrite IHl; nia).
        apply IHk; lia.
Qed.

Lemma readRect_whole cv :
  wf_bitmap cv →
  readRect cv (bwidth cv) (bheight cv) = wholeCanvas cv.
Proof.
  intros [Hlen _]. unfold readRect, wholeCanvas. f_equal.
  set (w := bwidth cv). set (h := bheight cv).
  set (row := λ y, seq 0 w ≫= λ x, seq 0 4 ≫= λ c, [readChannel cv y x c]).
  assert (Hrow : ∀ y, length (row y) = w * 4 ∧
            ∀ x c, x < w → c < 4 →
              row y !! (x * 4 + c) = Some (readChannel cv y x c)).
  { intros y. destruct (bind_chunks
      (λ x, seq 0 4 ≫= λ c, [readChannel cv y x c]) 4 w) as [Hl Hk]; [done|].
    split; [exact Hl|]. intros x c Hx Hc. unfold row. rewrite Hk by done.
    by destruct c as [|[|[|[|c]]]]; [..|lia]. }
  destruct (bind_chunks row (w * 4) h) as [Hl Hk];
    [intros; apply Hrow|].
  apply list_eq. intros i.
  destruct (decide (i < w * h * 4)) as [Hi|Hi].
  - destruct (index_position w h i Hi) as (y & x & c & Hy & Hx & Hc & ->).
    replace ((y * w + x) * 4 + c) with (y * (w * 4) + (x * 4 + c)) by lia.
    change (seq 0 h ≫= _) with (seq 0 h ≫= row).
    rewrite Hk by (done || lia).
    rewrite (proj2 (Hrow y)) by done.
    unfold readChannel. fold w h.
    rewrite (proj2 (Nat.ltb_lt x w) Hx), (proj2 (Nat.ltb_lt y h) Hy).
    cbn [andb].
    replace (y * (w * 4) + (x * 4 + c)) with ((y * w + x) * 4 + c) by lia.
    destruct (lookup_lt_is_Some_2 (pixels cv) ((y * w + x) * 4 + c))
      as [v Hv]; [rewrite Hlen; fold w h; lia|].
    by rewrite Hv.
  - change (seq 0 h ≫= _) with (seq 0 h ≫= row).
    rewrite !lookup_ge_None_2; [done|rewrite Hlen; fold w h; lia|].
    rewrite Hl. lia.
Qed.

Lemma putImageData_whole cv img :
  length (pixels cv) = bwidth cv * bheight cv * 4 →
  width img = bwidth cv → height img = bheight cv →
  length (data img) = bwidth cv * bheight cv * 4 →
  putImageData cv img =
  {| bwidth := bwidth cv; bheight := bheight cv; pixels := data img |}.
Proof.
  intros Hlen Hw Hh Hd. unfold putImageData. f_equal.
  apply list_eq. intros i. rewrite list_lookup_imap.
  destruct (decide (i < bwidth cv * bheight cv * 4)) as [Hi|Hi].
  - destruct (lookup_lt_is_Some_2 (pixels cv) i) as [old Ho]; [lia|].
    destruct (lookup_lt_is_Some_2 (data img) i) as [v Hv]; [lia|].
    rewrite Ho, Hv. cbn [fmap option_fmap option_map]. f_equal.
    assert (bwidth cv ≠ 0) by (intros E; rewrite E in Hi; lia).
    assert (i / 4 < bwidth cv * bheight cv)
      by (apply Nat.Div0.div_lt_upper_bound; lia).
    rewrite Hw, Hh.
    rewrite (proj2 (Nat.ltb_lt _ _)) by (by apply Nat.mod_upper_bound).
    rewrite (proj2 (Nat.ltb_lt _ _))
      by (apply Nat.Div0.div_lt_upper_bound; lia).
    cbn [andb].
    replace ((i / 4 / bwidth cv * bwidth cv + (i / 4) mod bwidth cv) * 4
             + i mod 4) with i; [by rewrite Hv|].
    rewrite (Nat.mul_comm (i / 4 / bwidth cv)), <- Nat.div_mod_eq.
    rewrite (Nat.mul_comm (i / 4) 4). apply Nat.div_mod_eq.
  - assert (Hp : length (pixels cv) ≤ i) by (rewrite Hlen; lia).
    assert (Hq : length (data img) ≤ i) by (rewrite Hd; lia).
    by rewrite (lookup_ge_None_2 _ _ Hp), (lookup_ge_None_2 _ _ Hq).
Qed.

Lemma whole_canvas cv kernel :
  wf_bitmap cv → bwidth cv ≠ 0 → bheight cv ≠ 0 →
  applyConvolution cv (bwidth cv) (bheight cv) kernel =
  Return {| bwidth := bwidth cv; bheight := bheight cv;
            pixels := data (convolve (wholeCanvas cv) kernel).1 |}.
Proof.
  intros Hwf Hw Hh. rewrite applyConvolution_cases.
  rewrite (proj2 (Nat.eqb_neq _ 0) Hw), (proj2 (Nat.eqb_neq _ 0) Hh).
  cbn [orb]. f_equal. rewrite readRect_whole by done.
  destruct Hwf as [Hlen _].
  apply putImageData_whole; [done..|].
  destruct (output_wf (wholeCanvas cv) kernel) as [Hl _].
  exact Hl.
Qed.

(** On the whole of a well-formed canvas whose pixels are all opaque,
    [applyConvolution] replaces the pixels of the canvas by the convolution
    of those very pixels, and leaves the canvas opaque: with full alpha
    before and after, reading the image data and putting it back loses
    nothing. *)
Theorem applyConvolution_whole_canvas cv kernel :
  wf_bitmap cv → opaqueBitmap cv → bwidth cv ≠ 0 → bheight cv ≠ 0 →
  let cv' := {| bwidth := bwidth cv; bheight := bheight cv;
                pixels := data (convolve (wholeCanvas cv) kernel).1 |} in
  applyConvolution cv (bwidth cv) (bheight cv) kernel = Return cv' ∧
  opaqueBitmap cv'.
Proof.
  intros Hwf Hop Hw Hh. cbn zeta. split; [by apply whole_canvas|].
  intros p Hp. cbn [bwidth bheight pixels] in *.
  assert (Hy : p / bwidth cv < bheight cv)
    by (apply Nat.Div0.div_lt_upper_bound; lia).
  assert (Hx : p mod bwidth cv < bwidth cv) by (by apply Nat.mod_upper_bound).
  assert (Hpos : p = p / bwidth cv * bwidth cv + p mod bwidth cv)
    by (rewrite (Nat.mul_comm (p / bwidth cv)); apply Nat.div_mod_eq).
  pose proof (alpha_kept (wholeCanvas cv) kernel _ _ Hwf Hx Hy) as Ha.
  cbn [wholeCanvas width data] in Ha. rewrite <- Hpos in Ha.
  rewrite Ha. by apply Hop.
Qed.

(** On the whole of a well-formed canvas, [applyConvolution] with the
    identity kernel leaves the canvas as it is. *)
Theorem applyConvolution_identity cv m :
  wf_bitmap cv → bwidth cv ≠ 0 → bheight cv ≠ 0 →
  applyConvolution cv (bwidth cv) (bheight cv) (identityKernel m) = Return cv.
Proof.
  intros Hwf Hw Hh. rewrite whole_canvas by done.
  rewrite (identity_data (wholeCanvas cv)) by exact Hwf.
  by destruct cv.
Qed.

Lemma one_pixel_wf : wf_bitmap one_pixel.
Proof.
  split; [reflexivity|].
  repeat (apply Forall_cons; split; [lia|]). apply Forall_nil_2.
Qed.

Lemma one_pixel_opaque : opaqueBitmap one_pixel.
Proof. intros p Hp. cbn in Hp. by replace p with 0 by lia. Qed.

Lemma applyConvolution_whole_canvas_witness :
  wf_bitmap one_pixel ∧ opaqueBitmap one_pixel ∧
  bwidth one_pixel ≠ 0 ∧ bheight one_pixel ≠ 0 ∧
  applyConvolution one_pixel 1 1 sharpenKernel =
    Return {| bwidth := 1; bheight := 1; pixels := [255; 255; 250; 255]%Z |}.
Proof.
  split; [exact one_pixel_wf|]. split; [exact one_pixel_opaque|].
  split; [cbn; lia|]. split; [cbn; lia|].
  destruct (applyConvolution_whole_canvas one_pixel sharpenKernel
              one_pixel_wf one_pixel_opaque) as [H _];
    [cbn; lia | cbn; lia |].
  refine (eq_trans H _). reflexivity.
Defined.

Lemma applyConvolution_identity_witness :
  wf_bitmap one_pixel ∧ bwidth one_pixel ≠ 0 ∧ bheight one_pixel ≠ 0 ∧
  applyConvolution one_pixel 1 1 (identityKernel 2) = Return one_pixel.
Proof.
  split; [exact one_pixel_wf|]. split; [cbn; lia|]. split; [cbn; lia|].
  apply (applyConvolution_identity one_pixel 2 one_pixel_wf); cbn; lia.
Defined.

(** Whatever the rectangle and the kernel, [applyConvolution] keeps the
    size of the canvas and leaves a well-formed canvas well-formed. *)
Theorem applyConvolution_keeps_canvas cv w h kernel cv' :
  wf_bitmap cv →
  applyConvolution cv w h kernel = Return cv' →
  bwidth cv' = bwidth cv ∧ bheight cv' = bheight cv ∧ wf_bitmap cv'.
Proof.
  intros [Hlen Hrange] Hret. rewrite applyConvolution_cases in Hret.
  destruct ((w =? 0) || (h =? 0)); [discriminate|].
  injection Hret as <-. split; [done|]. split; [done|].
  split; cbn [putImageData bwidth bheight pixels].
  - by rewrite length_imap.
  - apply Forall_lookup. intros i v. rewrite list_lookup_imap.
    destruct (pixels cv !! i) as [old|] eqn:Ho; [|done].
    cbn [fmap option_fmap option_map]. intros [= <-].
    assert (0 ≤ old ≤ 255)%Z
      by (by apply (Forall_lookup_1 _ _ _ _ Hrange Ho)).
    match goal with |- context [if ?b then _ else _] => destruct b end;
      [|done].
    match goal with |- context [default _ ?o] =>
      destruct o as [u|] eqn:Hu end; [|done]. cbn.
    destruct (output_wf (readRect cv w h) kernel) as [_ Hall].
    by apply (Forall_lookup_1 _ _ _ _ Hall Hu).
Qed.

Lemma applyConvolution_keeps_canvas_witness :
  wf_bitmap one_pixel ∧
  ∃ cv', applyConvolution one_pixel 3 2 sharpenKernel = Return cv' ∧
         bwidth cv' = 1 ∧ bheight cv' = 1 ∧ wf_bitmap cv'.
Proof.
  split; [exact one_pixel_wf|]. eexists. split; [reflexivity|].
  exact (applyConvolution_keeps_canvas one_pixel 3 2 sharpenKernel _
           one_pixel_wf eq_refl).
Defined.

End ConvolutionMore.

(** ** More on the look and the stacking *)

Module Canvas2DMore.

Import Canvas2D Canvas2DFacts Pixels.
Local Open Scope Qc_scope.

Lemma leb_le (x y : Qc) : leb x y = true ↔ x ≤ y.
Proof.
  unfold leb. rewrite Qcle_alt.
  destruct (x ?= y); split; intros; congruence.
Qed.

Lemma clamp01_range (x : Qc) : 0 ≤ clamp01 x ≤ 1.
Proof.
  unfold clamp01.
  destruct (leb x 0) eqn:H0; [done|].
  destruct (leb 1 x) eqn:H1; [done|].
  split.
  - apply Qclt_le_weak, Qcnot_le_lt. intros Hle.
    apply leb_le in Hle. congruence.
  - apply Qclt_le_weak, Qcnot_le_lt. intros Hle.
    apply leb_le in Hle. congruence.
Qed.

Section WithPlatform.

Context `{Platform}.

Lemma lookFilter_inGamut p :
  alpha p = 1 → inGamut (applyFilters lookFilter p).
Proof.
  intros Ha. unfold lookFilter, applyFilters. cbn [foldl].
  unfold applyFilter at 1. cbn [alpha applyFilter].
  rewrite Ha. unfold inGamut. cbn [alpha red green blue].
  rewrite !Qcmult_1_r.
  split_and!; try done; apply clamp01_range.
Qed.

Lemma look_keeps_size canvas :
  has2d canvas = true →
  width (processSonyLook canvas) = width canvas ∧
  height (processSonyLook canvas) = height canvas.
Proof.
  intros Hctx. unfold processSonyLook. rewrite Hctx. by cbn.
Qed.

(** What [processSonyLook] leaves behind on a canvas with a context: the
    size and the number of pixels it found, the opacity it found, the blend
    mode back to [source-over] and the filter back to none, but the fill
    style still the orange of the second tint. *)
Theorem processSonyLook_leaves_state canvas :
  has2d canvas = true →
  width canvas ≠ 0%nat → height canvas ≠ 0%nat →
  width (processSonyLook canvas) = width canvas ∧
  height (processSonyLook canvas) = height canvas ∧
  length (bitmap (processSonyLook canvas)) = length (bitmap canvas) ∧
  has2d (processSonyLook canvas) = true ∧
  state (processSonyLook canvas) =
    {| globalAlpha := globalAlpha (state canvas);
       globalCompositeOperation := SourceOver;
       fillStyle := rgba 255 150 50 (ratio 15 100);
       filter := [] |}.
Proof.
  intros Hctx _ _. unfold processSonyLook. rewrite Hctx.
  cbn [negb has2d setHeight setWidth createCanvas].
  split_and!; try reflexivity; [|done].
  cbn [setFilter withState bitmap drawImage withBitmap
       setGlobalCompositeOperation setFillStyle fillRect clearRect].
  by rewrite length_imap, !length_fmap, length_imap, length_fmap.
Qed.

(** On an opaque canvas drawn at full opacity, every pixel [processSonyLook]
    leaves is opaque with its three colour channels between 0 and 1. *)
Theorem processSonyLook_in_gamut canvas :
  has2d canvas = true →
  globalAlpha (state canvas) = 1 →
  width canvas ≠ 0%nat → height canvas ≠ 0%nat →
  length (bitmap canvas) = (width canvas * height canvas)%nat →
  Forall (λ p, alpha p = 1) (bitmap canvas) →
  Forall inGamut (bitmap (processSonyLook canvas)).
Proof.
  intros Hctx Hg _ _ Hlen Hop.
  rewrite processSonyLook_opaque by done.
  apply Forall_fmap. eapply Forall_impl; [exact Hop|].
  intros p Hp. by apply lookFilter_inGamut.
Qed.

(** On an opaque canvas of one colour, [processSonyLook] leaves a canvas of
    one colour. *)
Theorem processSonyLook_uniform canvas p :
  has2d canvas = true →
  globalAlpha (state canvas) = 1 →
  width canvas ≠ 0%nat → height canvas ≠ 0%nat →
  alpha p = 1 →
  bitmap canvas = replicate (width canvas * height canvas) p →
  bitmap (processSonyLook canvas) =
  replicate (width canvas * height canvas) (applyFilters lookFilter p).
Proof.
  intros Hctx Hg _ _ Ha Hb.
  rewrite processSonyLook_opaque; [|done|done|..].
  - by rewrite Hb, fmap_replicate.
  - by rewrite Hb, length_replicate.
  - rewrite Hb. by apply Forall_replicate.
Qed.

(** *** The stacking of opaque frames *)

Lemma stackFrames_length n videoElement c0 :
  length (bitmap (stackFrames n videoElement c0)) = length (bitmap c0).
Proof.
  unfold stackFrames.
  apply (for_loop_ind (λ _ c, length (bitmap c) = length (bitmap c0)));
    [done|].
  intros i c _ Hc. cbn [drawImage withBitmap bitmap setGlobalAlpha withState].
  by rewrite length_imap.
Qed.

Lemma stacked_length videoElement canvas :
  length (bitmap (stacked videoElement canvas)) =
  (videoWidth videoElement * videoHeight videoElement)%nat.
Proof.
  unfold stacked. cbn [setGlobalAlpha withState bitmap].
  rewrite stackFrames_length. cbn. by rewrite length_fmap, length_replicate.
Qed.

(** The composite of four opaque frames, before the look. *)
Lemma stacked_mean videoElement canvas k :
  (∀ i k, alpha (frame videoElement i k) = 1) →
  (k < videoWidth videoElement * videoHeight videoElement)%nat →
  bitmap (stacked videoElement canvas) !! k =
  Some (meanPixel frameCount (λ i, frame videoElement i k)).
Proof.
  intros Hop Hk.
  destruct (stackFrames_meanSoFar frameCount videoElement
              (clearRect (setHeight (videoHeight videoElement)
                            (setWidth (videoWidth videoElement) canvas))))
    as (_ & _ & Hpix); [reflexivity|reflexivity| |done|].
  - cbn. rewrite fmap_replicate. by apply Forall_replicate.
  - apply Hpix. cbn. by rewrite length_fmap, length_replicate.
Qed.

End WithPlatform.

Lemma darkGrayCanvas_opaque : Forall (λ p, alpha p = 1) (bitmap darkGrayCanvas).
Proof. apply Forall_cons. split; [reflexivity|]. apply Forall_nil_2. Qed.

Lemma processSonyLook_leaves_state_witness :
  has2d darkGrayCanvas = true ∧
  fillStyle (state (@processSonyLook examplePlatform darkGrayCanvas)) =
    rgba 255 150 50 (ratio 15 100).
Proof.
  split; [reflexivity|].
  destruct (@processSonyLook_leaves_state examplePlatform darkGrayCanvas
              eq_refl) as (_ & _ & _ & _ & ->); [cbn; lia..|].
  reflexivity.
Defined.

Lemma processSonyLook_in_gamut_witness :
  has2d darkGrayCanvas = true ∧
  Forall (λ p, alpha p = 1) (bitmap darkGrayCanvas) ∧
  Forall inGamut (bitmap (@processSonyLook examplePlatform darkGrayCanvas)).
Proof.
  split; [reflexivity|]. split; [exact darkGrayCanvas_opaque|].
  apply (@processSonyLook_in_gamut examplePlatform darkGrayCanvas);
    [reflexivity | reflexivity | cbn; lia | cbn; lia | reflexivity
    | exact darkGrayCanvas_opaque].
Defined.

Lemma processSonyLook_uniform_witness :
  alpha darkGray = 1 ∧
  bitmap (@processSonyLook examplePlatform darkGrayCanvas) =
  [@applyFilters lookFilter darkGray].
Proof.
  split; [reflexivity|].
  apply (@processSonyLook_uniform examplePlatform darkGrayCanvas darkGray);
    [reflexivity | reflexivity | cbn; lia | cbn; lia | reflexivity
    | reflexivity].
Defined.

End Canvas2DMore.

(** ** More on the capture handler *)

Module AppMore.

Import Canvas2D Canvas2DFacts Pixels Canvas2DMore Gemini App AppFacts Samples.
Local Open Scope Qc_scope.

Section WithPlatform.

Context `{Platform}.

Lemma sumQc_ext n f g : (∀ i, f i = g i) → sumQc n f = sumQc n g.
Proof.
  intros Hfg. induction n as [|n IH]; [done|].
  by rewrite !sumQc_S, IH, Hfg.
Qed.

(** The mean of [n >= 1] copies of a value is the value. *)
Lemma mean_constant n c : n ≠ 0%nat → arithmeticMean n (λ _, c) = c.
Proof.
  intros Hn. destruct n as [|n]; [done|]. clear Hn.
  induction n as [|n IH].
  - rewrite <- (mean_first (λ _, c) 1). cbn [Nat.add].
    replace (Qc_of_nat 1) with 1 by (symmetry; apply Z2Qc_inj_1).
    field. discriminate.
  - rewrite <- (mean_next (S n) (λ _, c)) by done. rewrite IH.
    rewrite Nat.add_1_r.
    pose proof (Qc_of_nat_nonzero (S (S n)) (Nat.neq_succ_0 _)).
    field. done.
Qed.

Lemma mean_static videoElement k :
  (∀ i k, frame videoElement i k = frame videoElement 0 k) →
  alpha (frame videoElement 0 k) = 1 →
  meanPixel frameCount (λ i, frame videoElement i k) = frame videoElement 0 k.
Proof.
  intros Hs Ha.
  apply pixel_eq; cbn [meanPixel red green blue alpha];
    unfold arithmeticMean;
    rewrite (sumQc_ext _ _ (λ _, _ (frame videoElement 0 k)))
      by (intros i; by rewrite Hs);
    by apply (mean_constant frameCount).
Qed.

(** On a scene that does not move, the stacking adds nothing: with opaque
    frames that are all the same, the capture of the PRO mode takes the very
    picture the normal capture takes. *)
Theorem static_scene_same_picture video canvas :
  has2d canvas = true →
  videoWidth video ≠ 0%nat → videoHeight video ≠ 0%nat →
  (∀ i k, frame video i k = frame video 0 k) →
  (∀ k, alpha (frame video 0 k) = 1) →
  takePicture PRO video canvas = takePicture PHOTO video canvas.
Proof.
  intros Hctx _ _ Hs Ha.
  unfold takePicture, performStacking, normalCapture. cbn [isPRO].
  rewrite Hctx. cbn [negb has2d setHeight setWidth]. rewrite Hctx.
  assert (stacked video canvas =
          drawImage (frame video 0)
            (setHeight (videoHeight video)
               (setWidth (videoWidth video) canvas))) as ->; [|done].
  assert (stacked video canvas =
          {| width := videoWidth video; height := videoHeight video;
             bitmap := bitmap (stacked video canvas);
             state := defaultState; has2d := has2d canvas |}) as ->
    by reflexivity.
  unfold drawImage, withBitmap.
  cbn [setHeight setWidth width height state has2d bitmap]. f_equal.
  apply list_eq. intros k. rewrite list_lookup_imap.
  destruct (decide (k < videoWidth video * videoHeight video)%nat)
    as [Hk|Hk].
  - rewrite stacked_mean; [|intros i j; by rewrite Hs|done].
    rewrite lookup_replicate_2 by done.
    cbn [fmap option_fmap option_map]. f_equal.
    rewrite mean_static by done.
    unfold paint. cbn. symmetry. apply source_over_transparent.
  - rewrite !lookup_ge_None_2; [done|..].
    + rewrite length_replicate. lia.
    + rewrite stacked_length. lia.
Qed.

(** *** Captures that add no photo *)

(** A capture on a canvas that gives no 2d context adds no photo, in any
    mode, and leaves the handler ready for the next call. *)
Theorem capture_without_context clock s video canvas :
  videoRef s = Some video → canvasRef s = Some canvas →
  isCapturing s = false →
  has2d canvas = false →
  artifact clock s = None ∧
  photos (capture clock s) = photos s ∧
  isCapturing (capture clock s) = false.
Proof.
  intros Hv Hc Hidle Hctx.
  assert (Hart : artifact clock s = None).
  { unfold artifact, handleCapture_call. rewrite Hv, Hc, Hidle.
    cbn [videoRef canvasRef setIsCapturing p_mode]. rewrite Hv, Hc.
    unfold takePicture, performStacking, normalCapture.
    destruct (isPRO (mode s)); cbn [has2d setHeight setWidth];
      by rewrite Hctx. }
  split; [exact Hart|]. split.
  - by rewrite capture_photos, Hart.
  - unfold capture, handleCapture_call. by rewrite Hv, Hc, Hidle.
Qed.

(** *** What a photo records *)

(** The photo a capture adds records the mode and the settings of the
    moment the handler was called, is marked enhanced exactly in the PRO
    mode, carries the two clock readings, has the size of the video, and a
    data URL that is not empty. *)
Theorem artifact_records_capture clock s video a :
  videoRef s = Some video →
  videoWidth video ≠ 0%nat → videoHeight video ≠ 0%nat →
  artifact clock s = Some a →
  metadata a = {| m_settings := settings s; m_mode := mode s |} ∧
  isEnhanced a = isPRO (mode s) ∧
  id a = pretty (idNow clock) ∧
  timestamp a = stampNow clock ∧
  imageWidth a = videoWidth video ∧
  imageHeight a = videoHeight video ∧
  isEmpty (url a) = false.
Proof.
  intros Hv Hw Hh. unfold artifact, handleCapture_call. rewrite Hv.
  destruct (canvasRef s) as [canvas|] eqn:Hc; [|done].
  destruct (isCapturing s); [done|].
  cbn [videoRef canvasRef setIsCapturing p_mode]. rewrite Hv, Hc.
  destruct (takePicture (mode s) video canvas) as [[c' dataUrl]|e] eqn:Ht;
    [|done].
  destruct (isEmpty dataUrl) eqn:Hurl; [done|].
  intros [= <-]. cbn [newPhoto metadata isEnhanced id timestamp imageWidth
                      imageHeight url p_mode p_settings].
  split_and!; try done.
  all: unfold takePicture, performStacking, normalCapture in Ht.
  all: destruct (isPRO (mode s)).
  all: cbn [has2d setHeight setWidth] in Ht.
  all: destruct (has2d canvas) eqn:Hctx; cbn [negb] in Ht;
         try discriminate Ht.
  all: injection Ht as <- <-; try discriminate Hurl.
  all: match goal with
       | |- width (processSonyLook ?c) = _ =>
           destruct (look_keeps_size c) as (-> & _);
             [exact Hctx | reflexivity]
       | |- height (processSonyLook ?c) = _ =>
           destruct (look_keeps_size c) as (_ & ->);
             [exact Hctx | reflexivity]
       end.
Qed.

(** Two photos have the same [id] exactly when the clock read the same
    for both. *)
Theorem photo_ids p1 p2 clock1 clock2 c1 c2 url1 url2 :
  id (newPhoto p1 clock1 c1 url1) = id (newPhoto p2 clock2 c2 url2) ↔
  idNow clock1 = idNow clock2.
Proof.
  cbn [newPhoto id]. split; [apply (inj pretty)|by intros ->].
Qed.

(** No capture ever stores a photo with an empty data URL. *)
Theorem photos_have_urls clocks s :
  Forall (λ a, isEmpty (url a) = false) (photos s) →
  Forall (λ a, isEmpty (url a) = false) (photos (captures clocks s)).
Proof.
  revert s. induction clocks as [|clock rest IH]; intros s Hs; [done|].
  cbn [captures foldl]. fold (captures rest (capture clock s)).
  apply IH. rewrite capture_photos.
  destruct (artifact clock s) as [a|] eqn:Ha; [|done].
  apply Forall_cons. split; [|done].
  revert Ha. unfold artifact.
  destruct (handleCapture_call s) as [s' [c|p]]; [done|].
  destruct (videoRef s'), (canvasRef s'); try done.
  destruct (takePicture _ _ _) as [[c' dataUrl]|e]; [|done].
  destruct (isEmpty dataUrl) eqn:Hurl; [done|].
  by intros [= <-].
Qed.

End WithPlatform.

Lemma static_scene_same_picture_witness :
  has2d darkGrayCanvas = true ∧
  @takePicture examplePlatform PRO stillVideo darkGrayCanvas =
  @takePicture examplePlatform PHOTO stillVideo darkGrayCanvas.
Proof.
  split; [reflexivity|].
  apply (@static_scene_same_picture examplePlatform stillVideo
           darkGrayCanvas);
    [reflexivity | cbn; lia | cbn; lia | reflexivity | reflexivity].
Defined.

Lemma capture_without_context_witness :
  has2d blindCanvas = false ∧
  photos (@capture examplePlatform noon blind) = [].
Proof.
  split; [reflexivity|].
  destruct (@capture_without_context examplePlatform noon blind stillVideo
              blindCanvas) as (_ & Hp & _); [reflexivity..|].
  exact Hp.
Defined.

Lemma artifact_records_capture_witness :
  ∃ a, @artifact examplePlatform noon idle = Some a ∧
       imageWidth a = 2%nat ∧ isEnhanced a = true.
Proof.
  eexists. split; [vm_compute; reflexivity|].
  edestruct (@artifact_records_capture examplePlatform noon idle
               (solidVideo 2 1 fourColours))
    as (_ & He & _ & _ & Hw & _);
    [reflexivity | cbn; lia | cbn; lia | vm_compute; reflexivity |].
  split; [exact Hw | exact He].
Defined.

Lemma photos_have_urls_witness :
  Forall (λ a, isEmpty (url a) = false)
    (photos (@captures examplePlatform [noon; noon] idle)).
Proof.
  apply (@photos_have_urls examplePlatform [noon; noon] idle).
  apply Forall_nil_2.
Defined.

End AppMore.

(** ** Starting the camera and the metering *)

Module CameraFacts.

Import Canvas2D Gemini App AppFacts Camera Samples.

(** [startCamera] always ends with the loading flag down; it ends with no
    error exactly when a stream was obtained, from the preferred request or
    from the fallback, and the video, if there is one, started to play; any
    error it shows is the sensor error. *)
Theorem startCamera_outcome env hasVideo s :
  let s' := startCameraCallback env hasVideo s in
  isLoading s' = false ∧
  (cameraError s' = None ↔
     returns (acquire env) = true ∧
     (hasVideo = true → returns (play env) = true)) ∧
  (cameraError s' = None ∨ cameraError s' = Some sensorError).
Proof.
  cbn zeta. unfold startCameraCallback, startCamera.
  destruct (acquire env) as [m|e]; [destruct hasVideo; [destruct (play env)|]|];
    cbn; split_and!; try done; eauto; try split; try done;
    try (intros [? ?]; done); try (intros [_ Hp]; by specialize (Hp eq_refl)).
Qed.

(** Which stream the camera ends with: the one of the preferred request
    when that succeeds, else the one of the fallback; when both requests
    fail the stream there was stays, and so does the source of the video.
    A stream obtained is kept, and attached to the video if there is one,
    even when [play()] then fails. *)
Theorem startCamera_stream env hasVideo s :
  let s' := startCameraCallback env hasVideo s in
  (∀ m, preferred env = Return m →
     stream s' = Some m ∧ (hasVideo = true → srcObject s' = Some m)) ∧
  (∀ e m, preferred env = Throw e → fallback env = Return m →
     stream s' = Some m ∧ (hasVideo = true → srcObject s' = Some m)) ∧
  (∀ e e', preferred env = Throw e → fallback env = Throw e' →
     stream s' = stream s ∧ srcObject s' = srcObject s ∧
     cameraError s' = Some sensorError).
Proof.
  cbn zeta. unfold startCameraCallback, startCamera, acquire, try_catch.
  split_and!.
  - intros m ->. destruct hasVideo; [destruct (play env)|]; cbn; done.
  - intros e m -> ->. destruct hasVideo; [destruct (play env)|]; cbn; done.
  - intros e e' -> ->. done.
Qed.

Lemma startCamera_stream_witness :
  let env := {| preferred := Throw (DOMException "OverconstrainedError");
                fallback := Return 7;
                play := Throw (DOMException "NotAllowedError") |} in
  let s := {| stream := Some 3; isLoading := false; cameraError := None;
              srcObject := Some 3; stopped := [] |} in
  preferred env = Throw (DOMException "OverconstrainedError") ∧
  fallback env = Return 7 ∧
  stream (startCameraCallback env true s) = Some 7 ∧
  srcObject (startCameraCallback env true s) = Some 7.
Proof.
  cbn zeta. split; [reflexivity|]. split; [reflexivity|].
  destruct (startCamera_stream
    {| preferred := Throw (DOMException "OverconstrainedError");
       fallback := Return 7;
       play := Throw (DOMException "NotAllowedError") |} true
    {| stream := Some 3; isLoading := false; cameraError := None;
       srcObject := Some 3; stopped := [] |}) as (_ & H & _).
  destruct (H (DOMException "OverconstrainedError") 7%nat eq_refl eq_refl)
    as [Hs Ho].
  split; [exact Hs | exact (Ho eq_refl)].
Defined.

Lemma startCamera_outcome_witness :
  let env := {| preferred := Return 1; fallback := Return 2;
                play := Return tt |} in
  let s := {| stream := None; isLoading := true;
              cameraError := Some sensorError;
              srcObject := None; stopped := [] |} in
  returns (acquire env) = true ∧
  cameraError (startCameraCallback env true s) = None.
Proof.
  cbn zeta. split; [reflexivity|].
  destruct (startCamera_outcome
    {| preferred := Return 1; fallback := Return 2; play := Return tt |} true
    {| stream := None; isLoading := true; cameraError := Some sensorError;
       srcObject := None; stopped := [] |}) as (_ & [_ H] & _).
  apply H. split; reflexivity.
Defined.

(** *** The metering *)

Lemma pick_in_range d n : n ≠ 0 → pick d n < n.
Proof.
  intros Hn. unfold pick. apply Nat.Div0.div_lt_upper_bound. nia.
Qed.

(** A tick of the metering sets the ISO to an entry of its table and the
    shutter speed to an entry of its table, whatever the two draws, and
    leaves the aperture, the white balance and the exposure value alone. *)
Theorem meter_tables d1 d2 prev :
  iso (meter d1 d2 prev) ∈ isos ∧
  shutterSpeed (meter d1 d2 prev) ∈ shutters ∧
  aperture (meter d1 d2 prev) = aperture prev ∧
  wb (meter d1 d2 prev) = wb prev ∧
  ev (meter d1 d2 prev) = ev prev.
Proof.
  split_and!; try reflexivity; cbn [meter iso shutterSpeed].
  - destruct (lookup_lt_is_Some_2 isos (pick d1 (length isos))) as [v Hv].
    { apply pick_in_range. discriminate. }
    rewrite Hv. cbn. by apply (list_elem_of_lookup_2 _ _ _ Hv).
  - destruct (lookup_lt_is_Some_2 shutters (pick d2 (length shutters)))
      as [v Hv].
    { apply pick_in_range. discriminate. }
    rewrite Hv. cbn. by apply (list_elem_of_lookup_2 _ _ _ Hv).
Qed.

Section WithPlatform.

Context `{Platform}.

(** A capture in flight is not touched by the dial or the metering: when
    the mode or the settings change between the call of the handler and the
    end of the capture, the photos are the ones there would have been
    without the change, with the mode and the settings of the call. *)
Theorem capture_keeps_snapshot p clock s m d1 d2 :
  photos (handleCapture_settle p clock
            (setMode m (setSettings (meter d1 d2) s))).1 =
  photos (handleCapture_settle p clock s).1 ∧
  ∀ a, head (photos (handleCapture_settle p clock s).1) = Some a →
       head (photos s) ≠ Some a →
       metadata a = {| m_settings := p_settings p; m_mode := p_mode p |}.
Proof.
  split.
  - unfold handleCapture_settle.
    cbn [setMode setSettings videoRef canvasRef fst].
    destruct (videoRef s) as [v|]; [|done].
    destruct (canvasRef s) as [c|]; [|done].
    destruct (takePicture _ _ _) as [[c' dataUrl]|e]; [|done].
    by destruct (isEmpty dataUrl).
  - intros a. unfold handleCapture_settle. cbn [fst].
    destruct (videoRef s) as [v|]; [|cbn; congruence].
    destruct (canvasRef s) as [c|]; [|cbn; congruence].
    destruct (takePicture _ _ _) as [[c' dataUrl]|e]; [|cbn; congruence].
    destruct (isEmpty dataUrl); [cbn; congruence|].
    cbn. by intros [= <-] _.
Qed.

End WithPlatform.

Lemma capture_keeps_snapshot_witness :
  let p := {| p_mode := PRO; p_settings := DEFAULT_SETTINGS |} in
  let tick := setMode PHOTO
                (setSettings (meter (mkDraw 5 1) (mkDraw 0 3)) idle) in
  mode tick = PHOTO ∧ iso (settings tick) = 400 ∧
  (metadata <$> head (photos (@handleCapture_settle examplePlatform p noon
                                tick).1)) =
  Some {| m_settings := DEFAULT_SETTINGS; m_mode := PRO |}.
Proof.
  cbn zeta. split; [reflexivity|]. split; [reflexivity|].
  destruct (@capture_keeps_snapshot examplePlatform
    {| p_mode := PRO; p_settings := DEFAULT_SETTINGS |} noon idle PHOTO
    (mkDraw 5 1) (mkDraw 0 3)) as [-> Hmeta].
  destruct (head (photos (@handleCapture_settle examplePlatform
              {| p_mode := PRO; p_settings := DEFAULT_SETTINGS |} noon
              idle).1)) as [a|] eqn:Ha; [|vm_compute in Ha; discriminate Ha].
  cbn [fmap option_fmap option_map]. f_equal.
  apply (Hmeta a eq_refl). discriminate.
Defined.

End CameraFacts.

(** ** The convolution, from the canvas and back to it *)

Module ConvolutionEdge.

Import JS Convolution ConvolutionFacts CanvasData Footprint ConvolutionMore.

Lemma add_assoc (a b c : num) : add a (add b c) = add (add a b) c.
Proof. destruct a, b, c; simpl; try done. f_equal. lia. Qed.

Lemma add_zero_l (a : num) : add (Some 0%Z) a = a.
Proof. by destruct a. Qed.

Lemma sumTo_ext n g g' :
  (∀ i, i < n → g i = g' i) → sumTo n g = sumTo n g'.
Proof.
  induction n as [|n IH]; intros Hg; [done|].
  cbn. rewrite IH by (intros i Hi; apply Hg; lia).
  by rewrite (Hg n) by lia.
Qed.

(** The loop over a row of the kernel adds up the row. *)
Lemma row_sumTo k (g : nat → num) a :
  for_loop k (λ cx acc, add acc (g cx)) a = add a (sumTo k g).
Proof.
  induction k as [|k IH]; [by rewrite for_loop_0, add_zero_r|].
  rewrite for_loop_S, IH. cbn. by rewrite add_assoc.
Qed.

Lemma nest_sumTo n k (g : nat → nat → num) :
  for_loop n (λ cy acc, for_loop k (λ cx acc, add acc (g cy cx)) acc)
    (Some 0%Z) =
  sumTo n (λ cy, sumTo k (g cy)).
Proof.
  induction n as [|n IH]; [done|].
  rewrite for_loop_S, IH. cbn. apply row_sumTo.
Qed.

(** The test of line 30 is the test of being inside the image. *)
Lemma in_bounds_inside sw sh scy scx :
  in_bounds sw sh scy scx = true ↔ inside sw sh scy scx.
Proof.
  unfold in_bounds, inside.
  rewrite !andb_true_iff, !bool_decide_eq_true. lia.
Qed.

Lemma contribution_tapValue sw sh kernel s sy sx c cy cx :
  contribution sw sh kernel s sy sx c cy cx =
  tapValue sw sh kernel s sy sx c cy cx.
Proof.
  unfold contribution, tapValue, srcOff.
  destruct (in_bounds _ _ _ _) eqn:Hin.
  - apply in_bounds_inside in Hin. by rewrite decide_True.
  - rewrite decide_False; [done|].
    intros Hi. apply in_bounds_inside in Hi. congruence.
Qed.

Lemma weighted_sum_footprint sw sh kernel s sy sx c :
  weighted_sum sw sh kernel s sy sx c = footprintSum sw sh kernel s sy sx c.
Proof.
  unfold weighted_sum, footprintSum. rewrite nest_sumTo.
  apply sumTo_ext. intros cy _. apply sumTo_ext. intros cx _.
  apply contribution_tapValue.
Qed.

Lemma readChannel_range cv y x c :
  Forall (λ v, 0 ≤ v ≤ 255)%Z (pixels cv) →
  (0 ≤ readChannel cv y x c ≤ 255)%Z.
Proof.
  intros Hr. unfold readChannel.
  destruct (_ && _); [|lia].
  destruct (pixels cv !! _) as [v|] eqn:Hv; cbn; [|lia].
  by apply (Forall_lookup_1 _ _ _ _ Hr Hv).
Qed.

(** The image data read off a well-formed canvas is well-formed, whatever
    the rectangle. *)
Lemma readRect_wf cv w h :
  wf_bitmap cv → wf_image (readRect cv w h).
Proof.
  intros [_ Hr]. split; cbn [readRect width height data].
  - destruct (bind_chunks
      (λ y, seq 0 w ≫= λ x, seq 0 4 ≫= λ c, [readChannel cv y x c])
      (w * 4) h) as [Hl _]; [|rewrite Hl; lia].
    intros y _.
    by destruct (bind_chunks
      (λ x, seq 0 4 ≫= λ c, [readChannel cv y x c]) 4 w) as [Hl _].
  - apply Forall_bind, Forall_forall. intros y _.
    apply Forall_bind, Forall_forall. intros x _.
    apply Forall_bind, Forall_forall. intros c _.
    apply Forall_singleton. by apply readChannel_range.
Qed.

(** C4, as stated, fails: the canvas the convolution is given does not stay
    as it was.  The result is computed in a new buffer, and line 46 then puts
    that buffer on the canvas: an opaque pixel (200, 100, 50) under the
    kernel of the single weight 2 is left as (255, 200, 100). *)
Lemma applyConvolution_overwrites_canvas :
  applyConvolution one_pixel 1 1 [2%Z] =
    Return {| bwidth := 1; bheight := 1; pixels := [255; 200; 100; 255]%Z |} ∧
  {| bwidth := 1; bheight := 1; pixels := [255; 200; 100; 255]%Z |} ≠
    one_pixel.
Proof. split; [reflexivity|discriminate]. Qed.

(** C4, amended: on a rectangle of a width and a height other than zero the
    convolution reads the image data of the rectangle, computes into a new
    buffer of the dimensions of that data without writing to the data it
    read, and then puts the new buffer on the canvas it was given.  In the
    new buffer the alpha of every pixel is the alpha of the source pixel at
    its position, and every colour channel is the clamped sum over the
    footprint of the kernel, in which a tap whose source coordinate is
    outside the image counts for zero: the loop body leaves the sums as they
    are at such a tap, and adds the weighted source channels at a tap
    inside. *)
Theorem applyConvolution_fresh_output cv w h kernel :
  wf_bitmap cv → w ≠ 0 → h ≠ 0 →
  let img := readRect cv w h in
  let run := convolve img kernel in
  applyConvolution cv w h kernel = Return (putImageData cv run.1) ∧
  width run.1 = w ∧ height run.1 = h ∧
  length (data run.1) = length (data img) ∧
  run.2 = data img ∧
  (∀ y x, y < h → x < w →
    data run.1 !! ((y * w + x) * 4 + 3) = data img !! ((y * w + x) * 4 + 3) ∧
    ∀ c, c < 3 →
      data run.1 !! ((y * w + x) * 4 + c) =
      Some (toUint8Clamp (footprintSum w h kernel (data img) y x c))) ∧
  (∀ sy sx cy cx acc,
    ¬ inside w h
        (Z.of_nat sy + Z.of_nat cy - Z.of_nat (halfSide kernel))
        (Z.of_nat sx + Z.of_nat cx - Z.of_nat (halfSide kernel)) →
    tap w h kernel (data img) sy sx cy cx acc = acc ∧
    ∀ c, tapValue w h kernel (data img) sy sx c cy cx = Some 0%Z) ∧
  (∀ sy sx cy cx r g b,
    inside w h
      (Z.of_nat sy + Z.of_nat cy - Z.of_nat (halfSide kernel))
      (Z.of_nat sx + Z.of_nat cx - Z.of_nat (halfSide kernel)) →
    tap w h kernel (data img) sy sx cy cx (r, g, b) =
    (add r (tapValue w h kernel (data img) sy sx 0 cy cx),
     add g (tapValue w h kernel (data img) sy sx 1 cy cx),
     add b (tapValue w h kernel (data img) sy sx 2 cy cx))).
Proof.
  intros Hwf Hw Hh. cbn zeta.
  pose proof (readRect_wf cv w h Hwf) as Himg.
  split_and!.
  - rewrite applyConvolution_cases.
    by rewrite (proj2 (Nat.eqb_neq _ 0) Hw), (proj2 (Nat.eqb_neq _ 0) Hh).
  - reflexivity.
  - reflexivity.
  - destruct (output_wf (readRect cv w h) kernel) as [Hl _].
    destruct Himg as [Hl' _]. rewrite Hl, Hl'. reflexivity.
  - apply rows_src.
  - intros y x Hy Hx. split.
    + by apply (alpha_kept (readRect cv w h)).
    + intros c Hc.
      rewrite (colour_stored (readRect cv w h)) by done.
      cbn [readRect width height]. by rewrite weighted_sum_footprint.
  - intros sy sx cy cx acc Hout. split.
    + apply tap_outside. destruct (in_bounds _ _ _ _) eqn:Hin; [|done].
      by apply in_bounds_inside in Hin.
    + intros c. unfold tapValue. by rewrite decide_False.
  - intros sy sx cy cx r g b Hin.
    rewrite tap_contribution. by rewrite !contribution_tapValue.
Qed.

Lemma applyConvolution_fresh_output_witness :
  wf_bitmap one_pixel ∧
  applyConvolution one_pixel 2 1 sharpenKernel =
    Return (putImageData one_pixel
              (convolve (readRect one_pixel 2 1) sharpenKernel).1) ∧
  data (convolve (readRect one_pixel 2 1) sharpenKernel).1 !! 4 =
    Some (toUint8Clamp
            (footprintSum 2 1 sharpenKernel
               (data (readRect one_pixel 2 1)) 0 1 0)).
Proof.
  split; [exact one_pixel_wf|].
  destruct (applyConvolution_fresh_output one_pixel 2 1 sharpenKernel
              one_pixel_wf) as (Hret & _ & _ & _ & _ & Hpix & _);
    [lia | lia |].
  split; [exact Hret|].
  destruct (Hpix 0 1) as [_ Hc]; [lia | lia |].
  exact (Hc 0 ltac:(lia)).
Defined.

End ConvolutionEdge.
